(** * Transcript acquisition of the YouTube learning backend

    A shallow embedding of the video controller: [extractVideoId],
    [transcribeAudio], [getTranscript] and [processVideo], with the
    collaborators (caption library, subprocesses, HTTP client, file system,
    document store) as explicit parameters and an explicit world state. *)

From Stdlib Require Import NArith Strings.String Strings.Ascii Lia.
From stdpp Require Import base option list gmap.

Open Scope N_scope.

(** ** JavaScript strings

    A JavaScript string is a sequence of UTF-16 code units.  Literals of the
    source are written with [js], which reads an ASCII literal. *)

Definition jsstring := list N.

Definition js (s : string) : jsstring :=
  List.map N_of_ascii (list_ascii_of_string s).

(** [WhiteSpace] and [LineTerminator] of ECMAScript, the code units removed by
    [String.prototype.trim]. *)
Definition is_js_space (c : N) : bool :=
  (c =? 9) || (c =? 10) || (c =? 11) || (c =? 12) || (c =? 13) || (c =? 32)
  || (c =? 160) || (c =? 5760) || ((8192 <=? c) && (c <=? 8202))
  || (c =? 8232) || (c =? 8233) || (c =? 8239) || (c =? 8287)
  || (c =? 12288) || (c =? 65279).

Fixpoint trim_start (s : jsstring) : jsstring :=
  match s with
  | c :: s' => if is_js_space c then trim_start s' else s
  | [] => []
  end.

Definition trim_end (s : jsstring) : jsstring :=
  List.rev (trim_start (List.rev s)).

Definition trim (s : jsstring) : jsstring := trim_end (trim_start s).

(** ** The regular expressions of the controller

    Every pattern of [extractVideoId] is a fixed sequence of one-character
    classes, so matching at a position needs no backtracking.  [re_search]
    is the unanchored search of [String.prototype.match] with a non-global
    pattern: the leftmost position at which the pattern matches. *)

Definition cclass := N -> bool.

Definition lit (c : N) : cclass := N.eqb c.

Definition lits (s : string) : list cclass := List.map lit (js s).

(** [[a-zA-Z0-9_-]] *)
Definition idchar : cclass := fun c =>
  ((97 <=? c) && (c <=? 122)) || ((65 <=? c) && (c <=? 90))
  || ((48 <=? c) && (c <=? 57)) || (c =? 95) || (c =? 45).

(** [[?&]] *)
Definition qmark_or_amp : cclass := fun c => (c =? 63) || (c =? 38).

(** [match_classes p s]: [s] starts with one character of each class of [p];
    the result is the matched prefix and the rest. *)
Fixpoint match_classes (p : list cclass) (s : jsstring)
  : option (jsstring * jsstring) :=
  match p with
  | [] => Some ([], s)
  | k :: p' =>
      match s with
      | c :: s' =>
          if k c then
            match match_classes p' s' with
            | Some (m, r) => Some (c :: m, r)
            | None => None
            end
          else None
      | [] => None
      end
  end.

(** [{11}] of the identifier class: the capture group of all four patterns. *)
Definition id_group : list cclass := List.repeat idchar 11.

(** A pattern [prefix([a-zA-Z0-9_-]{11})] tried at the start of [s]; the
    result is the capture group. *)
Definition match_here (prefix : list cclass) (s : jsstring) : option jsstring :=
  match match_classes prefix s with
  | Some (_, r) =>
      match match_classes id_group r with
      | Some (g, _) => Some g
      | None => None
      end
  | None => None
  end.

Fixpoint re_search {A} (m : jsstring -> option A) (s : jsstring) : option A :=
  match m s with
  | Some r => Some r
  | None =>
      match s with
      | [] => None
      | _ :: s' => re_search m s'
      end
  end.

(** [/[?&]v=([a-zA-Z0-9_-]{11})/] *)
Definition re_query (s : jsstring) : option jsstring :=
  re_search (match_here (qmark_or_amp :: lits "v=")) s.

(** [/youtu\.be\/([a-zA-Z0-9_-]{11})/] *)
Definition re_short (s : jsstring) : option jsstring :=
  re_search (match_here (lits "youtu.be/")) s.

(** [/youtube\.com\/embed\/([a-zA-Z0-9_-]{11})/] *)
Definition re_embed (s : jsstring) : option jsstring :=
  re_search (match_here (lits "youtube.com/embed/")) s.

(** [/^([a-zA-Z0-9_-]{11})$/] *)
Definition re_bare (s : jsstring) : option jsstring :=
  match match_classes id_group s with
  | Some (g, []) => Some g
  | _ => None
  end.

(** ** [extractVideoId]  *)

Definition extractVideoId (url : jsstring) : option jsstring :=
  let url := trim url in
  match re_query url with
  | Some id => Some id
  | None =>
      match re_short url with
      | Some id => Some id
      | None =>
          match re_embed url with
          | Some id => Some id
          | None =>
              match re_bare url with
              | Some id => Some id
              | None => None
              end
          end
      end
  end.

(** ** JavaScript values

    The values that cross the boundary with the collaborators: what
    [JSON.parse] builds, what the caption library and the HTTP client hand
    back.  No arithmetic is ever done on a number by the controller, so a
    number is kept as what the controller can observe of it: whether it is
    falsy (zero or NaN) and its [Number::toString] rendering.  An object is
    the list of its own properties, one binding per key. *)

#[local] Set Warnings "-register-all".

Inductive jsval :=
| JUndefined
| JNull
| JBool (b : bool)
| JNum (falsy : bool) (repr : jsstring)
| JStr (s : jsstring)
| JArr (items : list jsval)
| JObj (props : list (jsstring * jsval)).

(** [ToBoolean] *)
Definition truthy (v : jsval) : bool :=
  match v with
  | JUndefined | JNull => false
  | JBool b => b
  | JNum falsy _ => negb falsy
  | JStr s => match s with [] => false | _ => true end
  | JArr _ | JObj _ => true
  end.

(** Strings of a list separated by [sep], as [Array.prototype.join] builds
    its result once every element has been converted. *)
Fixpoint intercalate (sep : jsstring) (l : list jsstring) : jsstring :=
  match l with
  | [] => []
  | [x] => x
  | x :: l' => x ++ sep ++ intercalate sep l'
  end.

(** ** Exceptions

    Every value thrown in the controller or by a collaborator is an [Error]
    object.  A [TypeError] is raised by the engine itself (a property read on
    [undefined] or [null], a call of something that is no function, the
    conversion to a string of an object that cannot be converted); its
    message is engine-defined and not modelled. *)

Inductive error :=
| Error (message : jsstring)
| SyntaxError (message : jsstring)
| TypeError.

(** [f] on every element in turn, stopping at the first that throws. *)
Fixpoint traverse {A B} (f : A -> error + B) (l : list A) : error + list B :=
  match l with
  | [] => inr []
  | x :: l' =>
      match f x with
      | inl e => inl e
      | inr y =>
          match traverse f l' with
          | inl e => inl e
          | inr ys => inr (y :: ys)
          end
      end
  end.

(** Whether an object has an own property [k]. *)
Fixpoint has_own (k : jsstring) (props : list (jsstring * jsval)) : bool :=
  match props with
  | [] => false
  | (k', _) :: props' => bool_decide (k = k') || has_own k props'
  end.

(** [ToString].  An array renders as its [join(",")], in which [undefined]
    and [null] elements render as the empty string.  An object is converted
    through its [toString]: the inherited one answers ["[object Object]"];
    an own [toString] property of these values is never a function, the
    inherited [valueOf] (or an own one, no function either) gives no
    primitive, and the conversion throws a [TypeError]. *)
Fixpoint ToString (v : jsval) : error + jsstring :=
  match v with
  | JUndefined => inr (js "undefined")
  | JNull => inr (js "null")
  | JBool true => inr (js "true")
  | JBool false => inr (js "false")
  | JNum _ repr => inr repr
  | JStr s => inr s
  | JArr items =>
      match
        (fix elems (l : list jsval) : error + list jsstring :=
           match l with
           | [] => inr []
           | x :: l' =>
               match
                 match x with
                 | JUndefined | JNull => inr []
                 | _ => ToString x
                 end
               with
               | inl e => inl e
               | inr y =>
                   match elems l' with
                   | inl e => inl e
                   | inr ys => inr (y :: ys)
                   end
               end
           end) items
      with
      | inl e => inl e
      | inr rendered => inr (intercalate (js ",") rendered)
      end
  | JObj props =>
      if has_own (js "toString") props then inl TypeError
      else inr (js "[object Object]")
  end.

(** One element of [Array.prototype.join]. *)
Definition join_elem (v : jsval) : error + jsstring :=
  match v with
  | JUndefined | JNull => inr []
  | _ => ToString v
  end.

(** [Array.prototype.join]: the elements are converted in turn, and the
    first conversion that throws ends the call. *)
Definition join (sep : jsstring) (items : list jsval) : error + jsstring :=
  match traverse join_elem items with
  | inl e => inl e
  | inr rendered => inr (intercalate sep rendered)
  end.

(** [new Error(v)]: the message is [ToString v], empty for [undefined];
    [inl] when that conversion throws and no error object is built. *)
Definition new_Error (v : jsval) : error + error :=
  match v with
  | JUndefined => inr (Error [])
  | _ =>
      match ToString v with
      | inl e => inl e
      | inr message => inr (Error message)
      end
  end.

(** ** The world: files on disk and the calls made to collaborators *)

Inductive call :=
| CallFetchTranscript (videoId : jsstring)
| CallExec (command : jsstring)
| CallAxiosGet (url : jsstring)
| CallFindOne (videoId : jsstring)
| CallGenerate (transcript : jsval)
| CallSave (videoObj : jsval).

Record world := World {
  files : gset jsstring;
  calls : list call
}.

(** Outcome of [child_process.exec] as its callback sees it: [error] set
    (the process could not be run, exited nonzero, was killed or overflowed
    the output buffer), or the captured standard output. *)
Inductive exec_result :=
| ExecFailed (err : error)
| ExecDone (stdout : jsstring).

(** The collaborators and the Node built-ins the controller relies on.  A
    subprocess may change the files on disk. *)
Record Env := {
  dirname : jsstring;
  path_join : jsstring -> jsstring -> jsstring;
  JSON_parse : jsstring -> error + jsval;
  fetchTranscript : jsstring -> error + jsval;
  exec : jsstring -> gset jsstring -> exec_result * gset jsstring;
  axios_get : jsstring -> error + jsval;
  Video_findOne : jsstring -> error + jsval;
  Video_save : jsval -> error + jsval;
  generateLearningContent : jsval -> error + jsval;
  new_Date : jsval
}.

(** ** The monad of the controller: world state and exceptions *)

Definition M (A : Type) : Type := world -> (error + A) * world.

#[global] Instance M_ret : MRet M := fun A (a : A) w => (inr a, w).

#[global] Instance M_bind : MBind M := fun A B (f : A -> M B) (m : M A) w =>
  match m w with
  | (inr a, w') => f a w'
  | (inl e, w') => (inl e, w')
  end.

Definition throw {A} (e : error) : M A := fun w => (inl e, w).

(** [try { body } catch (e) { handler e }] *)
Definition try_catch {A} (body : M A) (handler : error -> M A) : M A := fun w =>
  match body w with
  | (inr a, w') => (inr a, w')
  | (inl e, w') => handler e w'
  end.

(** A pure step that may throw. *)
Definition lift {A} (r : error + A) : M A := fun w => (r, w).

Definition when_ (b : bool) (m : M unit) : M unit :=
  if b then m else mret tt.

(** ** Primitives: file system, collaborators, property access *)

(** [fs.existsSync] *)
Definition existsSync (p : jsstring) : M bool := fun w =>
  (inr (bool_decide (p ∈ files w)), w).

(** [fs.unlinkSync]: removes the file, or throws when there is none. *)
Definition unlinkSync (p : jsstring) : M unit := fun w =>
  if bool_decide (p ∈ files w)
  then (inr tt, World (files w ∖ {[p]}) (calls w))
  else (inl (Error (js "ENOENT: no such file or directory")), w).

(** [if (fs.existsSync(p)) fs.unlinkSync(p);] *)
Definition unlink_if_exists (p : jsstring) : M unit :=
  ex ← existsSync p; when_ ex (unlinkSync p).

(** [exec(command, callback)], awaited: the callback's [error] and [stdout]. *)
Definition run_exec (E : Env) (command : jsstring) : M exec_result := fun w =>
  let '(r, fs') := exec E command (files w) in
  (inr r, World fs' (calls w ++ [CallExec command])).

Definition call_fetchTranscript (E : Env) (videoId : jsstring) : M jsval := fun w =>
  (fetchTranscript E videoId, World (files w) (calls w ++ [CallFetchTranscript videoId])).

(** [axios.get(url)], then [.data] of the response. *)
Definition call_axios_get (E : Env) (url : jsstring) : M jsval := fun w =>
  (axios_get E url, World (files w) (calls w ++ [CallAxiosGet url])).

Definition call_findOne (E : Env) (videoId : jsstring) : M jsval := fun w =>
  (Video_findOne E videoId, World (files w) (calls w ++ [CallFindOne videoId])).

Definition call_generateLearningContent (E : Env) (transcript : jsval) : M jsval := fun w =>
  (generateLearningContent E transcript, World (files w) (calls w ++ [CallGenerate transcript])).

Definition call_save (E : Env) (videoObj : jsval) : M jsval := fun w =>
  (Video_save E videoObj, World (files w) (calls w ++ [CallSave videoObj])).

Fixpoint lookup_prop (k : jsstring) (props : list (jsstring * jsval)) : jsval :=
  match props with
  | [] => JUndefined
  | (k', v) :: props' => if bool_decide (k = k') then v else lookup_prop k props'
  end.

(** [v.k] for a key [k] that no prototype defines ([text], [error],
    [success], [transcript], [events], [segs], [utf8], [summary], ...): a
    [TypeError] on [undefined] and [null], the own property of an object,
    [undefined] on everything else. *)
Definition get_prop (v : jsval) (k : string) : error + jsval :=
  match v with
  | JUndefined | JNull => inl TypeError
  | JObj props => inr (lookup_prop (js k) props)
  | _ => inr JUndefined
  end.

Fixpoint map_err (f : jsval -> error + jsval) (l : list jsval) : error + list jsval :=
  match l with
  | [] => inr []
  | x :: l' =>
      match f x with
      | inl e => inl e
      | inr y =>
          match map_err f l' with
          | inl e => inl e
          | inr ys => inr (y :: ys)
          end
      end
  end.

(** [v.map(f)]: only an array has a [map] method; on anything else the call
    raises a [TypeError]. *)
Definition js_map (f : jsval -> error + jsval) (v : jsval) : error + list jsval :=
  match v with
  | JArr items => map_err f items
  | _ => inl TypeError
  end.

(** [`${v.length}`] in a log line: [length] is read and converted to a
    string, and only whether that throws can be observed.  A string and an
    array have a number there, a number and a boolean have [undefined], an
    object has its own [length] property, if any. *)
Definition read_length (v : jsval) : error + unit :=
  match v with
  | JUndefined | JNull => inl TypeError
  | JObj props =>
      match ToString (lookup_prop (js "length") props) with
      | inl e => inl e
      | inr _ => inr tt
      end
  | _ => inr tt
  end.

Definition dq : jsstring := [34].

(** ** [transcribeAudio] *)

Definition videoUrl_of (videoId : jsstring) : jsstring :=
  js "https://www.youtube.com/watch?v=" ++ videoId.

Definition tempBasePath (E : Env) (videoId : jsstring) : jsstring :=
  path_join E (dirname E) (js "../temp_" ++ videoId).

Definition expectedAudioFile (E : Env) (videoId : jsstring) : jsstring :=
  tempBasePath E videoId ++ js ".mp3".

Definition ytDlp_command (E : Env) (videoId : jsstring) : jsstring :=
  let ytDlpPath := path_join E (dirname E) (js "../venv/bin/yt-dlp") in
  dq ++ ytDlpPath ++ dq ++ js " -x --audio-format mp3 -o " ++ dq
     ++ tempBasePath E videoId ++ js ".%(ext)s" ++ dq ++ js " " ++ videoUrl_of videoId.

Definition whisper_command (E : Env) (videoId : jsstring) : jsstring :=
  let pythonPath := path_join E (dirname E) (js "../venv/bin/python") in
  let scriptPath := path_join E (dirname E) (js "../scripts/transcribe_audio.py") in
  dq ++ pythonPath ++ dq ++ js " " ++ dq ++ scriptPath ++ dq ++ js " "
     ++ dq ++ expectedAudioFile E videoId ++ dq.

(** Step 1, the body of the first [try]: download the audio with yt-dlp. *)
Definition download_audio (E : Env) (videoId : jsstring) : M unit :=
  unlink_if_exists (expectedAudioFile E videoId);;
  r ← run_exec E (ytDlp_command E videoId);
  match r with
  | ExecFailed error => throw error
  | ExecDone _ => mret tt
  end;;
  ex ← existsSync (expectedAudioFile E videoId);
  if negb ex then throw (Error (js "Audio file not created after yt-dlp run"))
  else mret tt.

(** The body of the inner [try] of the Whisper callback. *)
Definition parse_segments (E : Env) (stdout : jsstring) : error + jsval :=
  match JSON_parse E stdout with
  | inl e => inl e
  | inr segments =>
      match get_prop segments "error" with
      | inl e => inl e
      | inr err =>
          if truthy err then
            match new_Error err with
            | inl e => inl e
            | inr rejection => inl rejection
            end
          else
            match js_map (fun s => get_prop s "text") segments with
            | inl e => inl e
            | inr texts =>
                match join (js " ") texts with
                | inl e => inl e
                | inr fullText => inr (JStr fullText)
                end
            end
      end
  end.

(** The promise of [transcribeAudio]: [throw] is [reject], a returned value is
    [resolve].  [return reject(err)] in the first [catch] leaves the executor,
    so nothing after it runs. *)
Definition transcribeAudio (E : Env) (videoId : jsstring) : M jsval :=
  (* 1. Download Audio using yt-dlp *)
  try_catch (download_audio E videoId)
    (fun err =>
       unlink_if_exists (expectedAudioFile E videoId);;
       throw err);;
  (* 2. Transcribe using Python script *)
  r ← run_exec E (whisper_command E videoId);
  (* Clean up audio file *)
  unlink_if_exists (expectedAudioFile E videoId);;
  match r with
  | ExecFailed error => throw error
  | ExecDone stdout =>
      try_catch (lift (parse_segments E stdout))
                (fun parseError => throw parseError)
  end.

(** ** [getTranscript] *)

(** Method 1, the body of the [try]: [Some text] when the function returns
    from inside the block, [None] when control falls out of it.  A truthy
    result that is no array either has no positive [length] or has no [map]
    method, whose call raises a [TypeError] that the [catch] of this method
    absorbs: in both cases control falls out of the block. *)
Definition method1_body (E : Env) (videoId : jsstring) : M (option jsval) :=
  transcriptItems ← call_fetchTranscript E videoId;
  match transcriptItems with
  | JArr ((_ :: _) as items) =>
      texts ← lift (map_err (fun item => get_prop item "text") items);
      fullText ← lift (join (js " ") texts);
      mret (Some (JStr fullText))
  | _ => mret None
  end.

Definition method1 (E : Env) (videoId : jsstring) : M (option jsval) :=
  try_catch (method1_body E videoId) (fun err => mret None).

Definition python_command (E : Env) (videoId : jsstring) : jsstring :=
  let pythonPath := path_join E (dirname E) (js "../venv/bin/python") in
  let scriptPath := path_join E (dirname E) (js "../scripts/fetch_transcript.py") in
  dq ++ pythonPath ++ dq ++ js " " ++ dq ++ scriptPath ++ dq ++ js " " ++ videoId.

Definition python3_command (E : Env) (videoId : jsstring) : jsstring :=
  let scriptPath := path_join E (dirname E) (js "../scripts/fetch_transcript.py") in
  js "python3 " ++ dq ++ scriptPath ++ dq ++ js " " ++ videoId.

(** The promise built in method 2: [throw] is [reject], a returned value is
    [resolve]. *)
Definition python_promise (E : Env) (videoId : jsstring) : M jsval :=
  r ← run_exec E (python_command E videoId);
  match r with
  | ExecFailed error =>
      (* Attempting global python3 fallback *)
      r2 ← run_exec E (python3_command E videoId);
      match r2 with
      | ExecFailed err2 => throw error (* Reject with original error *)
      | ExecDone stdout2 =>
          try_catch
            (res ← lift (JSON_parse E stdout2);
             success ← lift (get_prop res "success");
             if truthy success then lift (get_prop res "transcript")
             else
               e ← lift (get_prop res "error");
               rejection ← lift (new_Error e);
               throw rejection)
            (fun pErr => throw pErr)
      end
  | ExecDone stdout =>
      try_catch
        (result ← lift (JSON_parse E stdout);
         success ← lift (get_prop result "success");
         if truthy success then lift (get_prop result "transcript")
         else
           e ← lift (get_prop result "error");
           rejection ← lift (new_Error e);
           throw rejection)
        (fun e => throw e)
  end.

Definition method2 (E : Env) (videoId : jsstring) : M (option jsval) :=
  try_catch
    (transcript ← python_promise E videoId;
     lift (read_length transcript);;
     mret (Some transcript))
    (fun e => mret None).

(** The longest prefix free of double quotes, and what follows it. *)
Fixpoint span_not_dq (s : jsstring) : jsstring * jsstring :=
  match s with
  | [] => ([], [])
  | c :: s' =>
      if c =? 34 then ([], s)
      else let '(a, b) := span_not_dq s' in (c :: a, b)
  end.

(** [/"baseUrl":"(https:\/\/www\.youtube\.com\/api\/timedtext[^"]+)"/] tried
    at the start of [s].  The greedy [[^"]+] can only be followed by the
    closing quote when it takes every character up to the next quote. *)
Definition match_baseUrl_here (s : jsstring) : option jsstring :=
  match match_classes (lit 34 :: lits "baseUrl" ++ lit 34 :: lit 58 :: [lit 34]) s with
  | Some (_, r) =>
      match match_classes (lits "https://www.youtube.com/api/timedtext") r with
      | Some (head, r') =>
          match span_not_dq r' with
          | ((_ :: _) as more, _ :: _) => Some (head ++ more)
          | _ => None
          end
      | None => None
      end
  | None => None
  end.

(** [.replace(/\\u0026/g, '&')] *)
Fixpoint unescape_amp (s : jsstring) : jsstring :=
  match s with
  | c0 :: s0 =>
      match s0 with
      | c1 :: c2 :: c3 :: c4 :: c5 :: s' =>
          if (c0 =? 92) && (c1 =? 117) && (c2 =? 48) && (c3 =? 48)
             && (c4 =? 50) && (c5 =? 54)
          then 38 :: unescape_amp s'
          else c0 :: unescape_amp s0
      | _ => c0 :: unescape_amp s0
      end
  | [] => []
  end.

(** [e => (e.segs ? e.segs.map(s => s.utf8).join('') : '')] *)
Definition event_text (e : jsval) : error + jsval :=
  match get_prop e "segs" with
  | inl err => inl err
  | inr segs =>
      if truthy segs then
        match js_map (fun s => get_prop s "utf8") segs with
        | inl err => inl err
        | inr parts =>
            match join [] parts with
            | inl err => inl err
            | inr text => inr (JStr text)
            end
        end
      else inr (JStr [])
  end.

(** [html.match(re)]: only a string has the method. *)
Definition html_match (html : jsval) : error + option jsstring :=
  match html with
  | JStr s => inr (re_search match_baseUrl_here s)
  | _ => inl TypeError
  end.

Definition method3_body (E : Env) (videoId : jsstring) : M (option jsval) :=
  html ← call_axios_get E (videoUrl_of videoId);
  captionMatch ← lift (html_match html);
  match captionMatch with
  | Some group1 =>
      let captionUrl := unescape_amp group1 ++ js "&fmt=json3" in
      data ← call_axios_get E captionUrl;
      if truthy data then
        events ← lift (get_prop data "events");
        if truthy events then
          texts ← lift (js_map event_text events);
          transcript ← lift (join (js " ") texts);
          mret (Some (JStr transcript))
        else mret None
      else mret None
  | None => mret None
  end.

Definition method3 (E : Env) (videoId : jsstring) : M (option jsval) :=
  try_catch (method3_body E videoId) (fun e => mret None).

Definition method4 (E : Env) (videoId : jsstring) : M (option jsval) :=
  try_catch (t ← transcribeAudio E videoId; mret (Some t)) (fun err => mret None).

Definition getTranscript (E : Env) (videoId : jsstring) : M jsval :=
  r1 ← method1 E videoId;
  match r1 with
  | Some fullText => mret fullText
  | None =>
      r2 ← method2 E videoId;
      match r2 with
      | Some transcript => mret transcript
      | None =>
          r3 ← method3 E videoId;
          match r3 with
          | Some transcript => mret transcript
          | None =>
              r4 ← method4 E videoId;
              match r4 with
              | Some text => mret text
              | None => throw (Error (js "Could not fetch transcript from any source"))
              end
          end
      end
  end.

(** ** [processVideo] *)

(** What the handler sends: [res.status(status).json(body)]; [res.json]
    alone sends status 200.  [ErrorOf e] is the object [{ error: e.message }]. *)
Inductive resp_body :=
| Json (v : jsval)
| ErrorOf (e : error).

Record response := Response {
  status : N;
  body : resp_body
}.

Definition error_json (message : string) : resp_body :=
  Json (JObj [(js "error", JStr (js message))]).

Definition S_ (s : string) : jsval := JStr (js s).

Definition quiz (question : string) (o1 o2 o3 o4 : string) (correctAnswer : string) : jsval :=
  JObj [(js "question", S_ question);
        (js "options", JArr [S_ o1; S_ o2; S_ o3; S_ o4]);
        (js "correctAnswer", S_ correctAnswer)].

Definition demo_transcript : jsval :=
  S_ "This is a demonstration transcript about Python programming fundamentals including variables, data types, functions, and object-oriented programming concepts.".

Definition demo_summary : jsval :=
  S_ "This video covers essential Python programming concepts. It introduces core fundamentals like variables, data types (strings, integers, lists, dictionaries), control flow statements (if-else, loops), functions, and object-oriented programming principles. Perfect for beginners learning Python.".

Definition demo_keyPoints : jsval :=
  JArr [S_ "Python variables and data types";
        S_ "Control flow with if-else and loops";
        S_ "Defining and using functions";
        S_ "Object-oriented programming basics";
        S_ "Working with lists and dictionaries"].

Definition demo_quizQuestions : jsval :=
  JArr [
    quiz "What is the correct way to declare a variable in Python?"
         "var x = 5" "int x = 5" "x = 5" "declare x = 5" "x = 5";
    quiz "Which of these is a mutable data type in Python?"
         "tuple" "string" "list" "integer" "list";
    quiz "What keyword is used to define a function in Python?"
         "function" "def" "func" "define" "def";
    quiz "Which method is used to add an element to a list?"
         "add()" "append()" "insert()" "push()" "append()";
    quiz "What is the output of: print(type([1, 2, 3]))?"
         "<class 'tuple'>" "<class 'list'>" "<class 'array'>" "<class 'dict'>"
         "<class 'list'>";
    quiz "How do you create a dictionary in Python?"
         "dict = []" "dict = ()" "dict = {}" "dict = <>" "dict = {}";
    quiz "What does the 'self' parameter represent in a class method?"
         "The class itself" "The method name" "The instance of the class"
         "A static variable" "The instance of the class";
    quiz "Which operator is used for exponentiation in Python?"
         "^" "**" "pow" "exp" "**";
    quiz "What will 'len([1, 2, 3, 4, 5])' return?"
         "4" "5" "6" "Error" "5";
    quiz "How do you start a comment in Python?"
         "//" "/*" "#" "--" "#"].

Definition demoContent (E : Env) (youtubeUrl : jsval) (videoId : jsstring) : jsval :=
  JObj [(js "youtubeUrl", youtubeUrl);
        (js "videoId", JStr videoId);
        (js "transcript", demo_transcript);
        (js "summary", demo_summary);
        (js "keyPoints", demo_keyPoints);
        (js "quizQuestions", demo_quizQuestions);
        (js "createdAt", new_Date E)].

Definition DEMO_MODE : bool := true.

(** [extractVideoId(youtubeUrl)] on a request value: [url.trim()] exists on
    strings only. *)
Definition extractVideoId_of (youtubeUrl : jsval) : error + option jsstring :=
  match youtubeUrl with
  | JStr url => inr (extractVideoId url)
  | _ => inl TypeError
  end.

(** [a || b] *)
Definition js_or (a b : jsval) : jsval := if truthy a then a else b.

(** The handler after the identifier check, when demo mode is off. *)
Definition process_fetched (E : Env) (youtubeUrl : jsval) (videoId : jsstring) : M response :=
  (* Check cache (if DB available) *)
  cached ← try_catch (call_findOne E videoId) (fun dbErr => mret JNull);
  if truthy cached then mret (Response 200 (Json cached))
  else
    transcript ← getTranscript E videoId;
    content ← call_generateLearningContent E transcript;
    summary ← lift (get_prop content "summary");
    keyPoints ← lift (get_prop content "keyPoints");
    quizQuestions ← lift (get_prop content "quizQuestions");
    let videoObj :=
      JObj [(js "youtubeUrl", youtubeUrl);
            (js "videoId", JStr videoId);
            (js "transcript", transcript);
            (js "summary", summary);
            (js "keyPoints", js_or keyPoints (JArr []));
            (js "quizQuestions", js_or quizQuestions (JArr []));
            (js "createdAt", new_Date E)] in
    try_catch
      (video ← call_save E videoObj;
       mret (Response 200 (Json video)))
      (fun dbErr => mret (Response 200 (Json videoObj))).

(** [exports.processVideo]: [reqBody] is [req.body]. *)
Definition processVideo (E : Env) (reqBody : jsval) : M response :=
  try_catch
    (youtubeUrl ← lift (get_prop reqBody "youtubeUrl");
     if negb (truthy youtubeUrl)
     then mret (Response 400 (error_json "YouTube URL is required"))
     else
       videoId ← lift (extractVideoId_of youtubeUrl);
       match videoId with
       | None => mret (Response 400 (error_json "Invalid YouTube URL"))
       | Some videoId =>
           if DEMO_MODE
           then mret (Response 200 (Json (demoContent E youtubeUrl videoId)))
           else process_fetched E youtubeUrl videoId
       end)
    (fun error => mret (Response 500 (ErrorOf error))).

(** ** The extractor as the specification words it

    An identifier is eleven characters of the identifier class.  A form
    occurs in a string at an offset when the string reads, from that offset
    on, the form's lead-in followed by an identifier. *)

Definition is_video_id (id : jsstring) : Prop :=
  length id = 11%nat /\ Forall (fun c => idchar c = true) id.

Definition occurs (lead_ok : jsstring -> Prop) (s : jsstring) (n : nat) (id : jsstring) : Prop :=
  exists pre lead post,
    s = pre ++ lead ++ id ++ post /\ length pre = n /\ lead_ok lead /\ is_video_id id.

Definition first_occurrence (lead_ok : jsstring -> Prop) (s id : jsstring) : Prop :=
  exists n, occurs lead_ok s n id
            /\ forall m id', (m < n)%nat -> ~ occurs lead_ok s m id'.

Definition no_occurrence (lead_ok : jsstring -> Prop) (s : jsstring) : Prop :=
  forall n id, ~ occurs lead_ok s n id.

(** (a) a [v=] query parameter *)
Definition query_lead (lead : jsstring) : Prop :=
  lead = js "?v=" \/ lead = js "&v=".

(** (b) a short-link path segment *)
Definition short_lead (lead : jsstring) : Prop := lead = js "youtu.be/".

(** (c) an embed-path segment *)
Definition embed_lead (lead : jsstring) : Prop := lead = js "youtube.com/embed/".

(** The four forms in order on the trimmed input, the first that applies
    deciding the result. *)
Inductive extract_spec (url : jsstring) : option jsstring -> Prop :=
| spec_query id :
    first_occurrence query_lead (trim url) id ->
    extract_spec url (Some id)
| spec_short id :
    no_occurrence query_lead (trim url) ->
    first_occurrence short_lead (trim url) id ->
    extract_spec url (Some id)
| spec_embed id :
    no_occurrence query_lead (trim url) ->
    no_occurrence short_lead (trim url) ->
    first_occurrence embed_lead (trim url) id ->
    extract_spec url (Some id)
| spec_bare :
    no_occurrence query_lead (trim url) ->
    no_occurrence short_lead (trim url) ->
    no_occurrence embed_lead (trim url) ->
    is_video_id (trim url) ->
    extract_spec url (Some (trim url))
| spec_none :
    no_occurrence query_lead (trim url) ->
    no_occurrence short_lead (trim url) ->
    no_occurrence embed_lead (trim url) ->
    ~ is_video_id (trim url) ->
    extract_spec url None.

(** ** Reading properties off well-formed values *)

(** [undefined] and [null], on which every property read throws. *)
Definition nullish (v : jsval) : bool :=
  match v with
  | JUndefined | JNull => true
  | _ => false
  end.

(** The property [k] of a value that is not nullish. *)
Definition prop_of (k : string) (v : jsval) : jsval :=
  match v with
  | JObj props => lookup_prop (js k) props
  | _ => JUndefined
  end.

Definition all_objects (l : list jsval) : bool :=
  forallb (fun v => negb (nullish v)) l.

(** What the caption script's output amounts to for method 2: the
    [transcript] property of the parsed object when its [success] property
    is truthy and the log line about the transcript's length can be written
    (the transcript is neither [undefined] nor [null], and what it has as
    [length] converts to a string). *)
Definition script_transcript (E : Env) (stdout : jsstring) : option jsval :=
  match JSON_parse E stdout with
  | inr (JObj props) =>
      if truthy (lookup_prop (js "success") props)
      then
        let transcript := lookup_prop (js "transcript") props in
        match read_length transcript with
        | inr _ => Some transcript
        | inl _ => None
        end
      else None
  | _ => None
  end.

(** What method 3 makes of the timed-text payload: the per-event strings
    joined by single spaces when the payload is truthy and carries a truthy
    [events] array whose mapping and joining raise nothing. *)
Definition timedtext_transcript (data : jsval) : option jsval :=
  if truthy data then
    match get_prop data "events" with
    | inr events =>
        if truthy events then
          match js_map event_text events with
          | inr texts =>
              match join (js " ") texts with
              | inr transcript => Some (JStr transcript)
              | inl _ => None
              end
          | inl _ => None
          end
        else None
    | inl _ => None
    end
  else None.

(** A caption item or segment whose [text] is the string [t]. *)
Definition has_text (item : jsval) (t : jsstring) : Prop :=
  get_prop item "text" = inr (JStr t).

(** A timed-text event whose segments carry the strings [parts]. *)
Definition event_segments (e : jsval) (parts : list jsstring) : Prop :=
  exists segs,
    get_prop e "segs" = inr segs
    /\ ((exists l, segs = JArr l
                   /\ Forall2 (fun s part => get_prop s "utf8" = inr (JStr part)) l parts)
        \/ (truthy segs = false /\ parts = [])).

(** ** Scenarios

    Concrete collaborators for the examples below.  Everything fails unless
    a scenario says otherwise. *)

Definition scenario_env
    (parse : jsstring -> error + jsval)
    (fetch : jsstring -> error + jsval)
    (run : jsstring -> gset jsstring -> exec_result * gset jsstring)
    (get : jsstring -> error + jsval) : Env :=
  {| dirname := js "/app/controllers";
     path_join := fun a b => a ++ js "/" ++ b;
     JSON_parse := parse;
     fetchTranscript := fetch;
     exec := run;
     axios_get := get;
     Video_findOne := fun _ => inr JNull;
     Video_save := fun v => inr v;
     generateLearningContent := fun _ => inr (JObj []);
     new_Date := JStr (js "2024-01-01T00:00:00.000Z") |}.

Definition no_parse : jsstring -> error + jsval :=
  fun _ => inl (SyntaxError (js "Unexpected end of JSON input")).

Definition no_fetch : jsstring -> error + jsval :=
  fun _ => inl (Error (js "Transcript is disabled on this video")).

Definition no_run : jsstring -> gset jsstring -> exec_result * gset jsstring :=
  fun _ fs => (ExecFailed (Error (js "Command failed")), fs).

Definition no_get : jsstring -> error + jsval :=
  fun _ => inl (Error (js "Network Error")).

Definition all_fail_env : Env := scenario_env no_parse no_fetch no_run no_get.

Definition video0 : jsstring := js "dQw4w9WgXcQ".

Definition world0 : world := World ∅ [].

(** A disk on which an earlier run left its audio file behind. *)
Definition stale_world : world :=
  World {[ expectedAudioFile all_fail_env video0 ]} [].

(** The download tool writes the audio file; the speech-to-text script
    prints [stdout]. *)
Definition audio_run (stdout : jsstring)
  : jsstring -> gset jsstring -> exec_result * gset jsstring :=
  fun command fs =>
    if bool_decide (command = ytDlp_command all_fail_env video0)
    then (ExecDone [], fs ∪ {[ expectedAudioFile all_fail_env video0 ]})
    else if bool_decide (command = whisper_command all_fail_env video0)
    then (ExecDone stdout, fs)
    else (ExecFailed (Error (js "Command failed")), fs).

(** [JSON.parse] on the one text [[]]. *)
Definition parse_empty_array : jsstring -> error + jsval :=
  fun text => if bool_decide (text = js "[]") then inr (JArr []) else no_parse text.

Definition empty_segments_env : Env :=
  scenario_env parse_empty_array no_fetch (audio_run (js "[]")) no_get.

(** The scenario of the specification: the caption library returns two
    items, with their timing. *)
Definition hello_items : list jsval :=
  [JObj [(js "text", S_ "Hello"); (js "duration", JNum false (js "1.5"));
         (js "offset", JNum true (js "0"))];
   JObj [(js "text", S_ "world"); (js "duration", JNum false (js "2"));
         (js "offset", JNum false (js "1.5"))]].

Definition hello_env : Env :=
  scenario_env no_parse (fun _ => inr (JArr hello_items)) no_run no_get.

(** The caption script exits with success and reports an empty transcript:
    [{"success": true, "transcript": ""}]. *)
Definition empty_transcript_stdout : jsstring :=
  js "{" ++ dq ++ js "success" ++ dq ++ js ": true, "
     ++ dq ++ js "transcript" ++ dq ++ js ": " ++ dq ++ dq ++ js "}".

Definition empty_transcript_env : Env :=
  scenario_env
    (fun text =>
       if bool_decide (text = empty_transcript_stdout)
       then inr (JObj [(js "success", JBool true); (js "transcript", JStr [])])
       else no_parse text)
    no_fetch
    (fun command fs =>
       if bool_decide (command = python_command all_fail_env video0)
       then (ExecDone empty_transcript_stdout, fs)
       else no_run command fs)
    no_get.

(** Both interpreters fail, each in its own way. *)
Definition venv_error : error := Error (js "spawn venv/bin/python ENOENT").

Definition python3_error : error := Error (js "python3 exited with code 1").

Definition both_pythons_fail_env : Env :=
  scenario_env no_parse no_fetch
    (fun command fs =>
       if bool_decide (command = python_command all_fail_env video0)
       then (ExecFailed venv_error, fs)
       else (ExecFailed python3_error, fs))
    no_get.

(** The watch page names a caption track, whose timed text has one event of
    two segments. *)
Definition watch_page : jsstring :=
  js "<script>{" ++ dq ++ js "baseUrl" ++ dq ++ js ":" ++ dq
     ++ js "https://www.youtube.com/api/timedtext?v=dQw4w9WgXcQ\u0026lang=en"
     ++ dq ++ js "}</script>".

Definition hello_event : jsval :=
  JObj [(js "tStartMs", JNum true (js "0"));
        (js "segs", JArr [JObj [(js "utf8", S_ "Hello")];
                          JObj [(js "utf8", S_ "world")]])].

Definition timedtext_payload : jsval :=
  JObj [(js "events", JArr [hello_event])].

Definition timedtext_env : Env :=
  scenario_env no_parse no_fetch no_run
    (fun url =>
       if bool_decide (url = videoUrl_of video0) then inr (JStr watch_page)
       else if bool_decide
                 (url = js "https://www.youtube.com/api/timedtext?v=dQw4w9WgXcQ&lang=en&fmt=json3")
            then inr timedtext_payload
            else no_get url).

(** A request for the video of the specification's scenario. *)
Definition watch_request : jsval :=
  JObj [(js "youtubeUrl", S_ "https://www.youtube.com/watch?v=dQw4w9WgXcQ")].

(** A store that is down, behind a caption library that answers and a
    content generator that returns a summary only. *)
Definition store_down : error := Error (js "connect ECONNREFUSED 127.0.0.1:27017").

Definition broken_store_env : Env :=
  {| dirname := js "/app/controllers";
     path_join := fun a b => a ++ js "/" ++ b;
     JSON_parse := no_parse;
     fetchTranscript := fun _ => inr (JArr hello_items);
     exec := no_run;
     axios_get := no_get;
     Video_findOne := fun _ => inl store_down;
     Video_save := fun _ => inl store_down;
     generateLearningContent := fun _ => inr (JObj [(js "summary", S_ "A greeting.")]);
     new_Date := JStr (js "2024-01-01T00:00:00.000Z") |}.

(** A store that already holds the document of the video. *)
Definition cached_document : jsval :=
  JObj [(js "videoId", JStr video0); (js "summary", S_ "A greeting.")].

Definition cached_env : Env :=
  {| dirname := js "/app/controllers";
     path_join := fun a b => a ++ js "/" ++ b;
     JSON_parse := no_parse;
     fetchTranscript := fun _ => inr (JArr hello_items);
     exec := no_run;
     axios_get := no_get;
     Video_findOne := fun _ => inr cached_document;
     Video_save := fun v => inr v;
     generateLearningContent := fun _ => inr (JObj []);
     new_Date := JStr (js "2024-01-01T00:00:00.000Z") |}.

(** A call of the acquisition chain past the caption library: a subprocess
    or a page fetch. *)
Definition acquisition_call (c : call) : Prop :=
  match c with
  | CallExec _ | CallAxiosGet _ => True
  | _ => False
  end.

(** ** [generateLearningContent]

    The transcript is a string here: [processTranscript] passes nothing
    else.  [groq] is the client built at start-up, [None] when no API key is
    set; its [chat.completions.create] takes the prompt (the other fields of
    the request are constants) and answers with the response object. *)

Module Content.

Definition maxLength : N := 6000.

(** [transcript.length > maxLength ? transcript.substring(0, maxLength) + '...' : transcript] *)
Definition truncated (transcript : jsstring) : jsstring :=
  if maxLength <? N.of_nat (length transcript)
  then take (N.to_nat maxLength) transcript ++ js "..."
  else transcript.

(** [[.!?]] *)
Definition is_terminator : cclass := fun c => (c =? 46) || (c =? 33) || (c =? 63).

(** [[^.!?]] *)
Definition not_terminator : cclass := fun c => negb (is_terminator c).

(** The longest prefix of characters of a class, and what follows it. *)
Fixpoint span (k : cclass) (s : jsstring) : jsstring * jsstring :=
  match s with
  | [] => ([], [])
  | c :: s' =>
      if k c then let '(a, b) := span k s' in (c :: a, b) else ([], s)
  end.

(** [/[^.!?]+[.!?]+/] tried at the start of [s]: the match and the rest.
    The two classes are complementary, so each greedy run is forced. *)
Definition sentence_here (s : jsstring) : option (jsstring * jsstring) :=
  match span not_terminator s with
  | ([], _) => None
  | (body, r) =>
      match span is_terminator r with
      | ([], _) => None
      | (term, r') => Some (body ++ term, r')
      end
  end.

(** [String.prototype.match] with a global pattern whose matches are never
    empty: every match, left to right, each search resuming where the match
    before it ended.  The fuel counts the positions left to try. *)
Fixpoint match_all (m : jsstring -> option (jsstring * jsstring)) (fuel : nat)
    (s : jsstring) : list jsstring :=
  match fuel with
  | O => []
  | S fuel' =>
      match m s with
      | Some (found, rest) => found :: match_all m fuel' rest
      | None =>
          match s with
          | [] => []
          | _ :: s' => match_all m fuel' s'
          end
      end
  end.

(** [text.match(/[^.!?]+[.!?]+/g) || []] *)
Definition sentences (text : jsstring) : list jsstring :=
  match_all sentence_here (S (length text)) text.

(** [sentences.map(s => s.trim()).filter(s => s.length > 40)] *)
Definition validSentences (text : jsstring) : list jsstring :=
  List.filter (fun s => (40 <? length s)%nat) (List.map trim (sentences text)).

(** [validSentences[0] ? validSentences[0].substring(0, 50) + "..." : "Concept A"];
    a valid sentence is longer than forty characters, hence truthy. *)
Definition mentioned (text : jsstring) : jsstring :=
  match validSentences text with
  | first :: _ => take 50 first ++ js "..."
  | [] => js "Concept A"
  end.

Definition question (text : string) (options : list jsval) (correctAnswer : jsval) : jsval :=
  JObj [(js "question", S_ text);
        (js "options", JArr options);
        (js "correctAnswer", correctAnswer)].

Definition quizQuestions (text : jsstring) : list jsval :=
  [question "What is the primary topic discussed in this video segment?"
     [S_ "The main topic from the transcript"; S_ "Ancient History";
      S_ "Cooking Recipes"; S_ "Sports"]
     (S_ "The main topic from the transcript");
   question "Which of the following was mentioned?"
     [JStr (mentioned text); S_ "Alien Life"; S_ "Underwater Basket Weaving";
      S_ "Time Travel"]
     (JStr (mentioned text))].

(** [validSentences.slice(0, 3).join(' ') || text.substring(0, 200)] *)
Definition summary_body (text : jsstring) : jsstring :=
  match intercalate (js " ") (take 3 (validSentences text)) with
  | [] => take 200 text
  | joined => joined
  end.

Definition nl : jsstring := [10].

Definition summary (text : jsstring) : jsstring :=
  js "This is a strictly local summary because no AI API key (Groq) was found. "
     ++ nl ++ nl ++ summary_body text.

(** [keyPoints.length > 0 ? keyPoints : ["Point 1", "Point 2", "Point 3"]]
    with [keyPoints = validSentences.slice(0, 5)] *)
Definition keyPoints (text : jsstring) : list jsstring :=
  match take 5 (validSentences text) with
  | [] => [js "Point 1"; js "Point 2"; js "Point 3"]
  | points => points
  end.

(** The object returned when no client is there (lines 229 to 261). *)
Definition local_content (text : jsstring) : jsval :=
  JObj [(js "summary", JStr (summary text));
        (js "keyPoints", JArr (List.map JStr (keyPoints text)));
        (js "quizQuestions", JArr (quizQuestions text))].

(** The object of the second absence check (lines 287 to 295). *)
Definition simple_content (transcript : jsstring) : jsval :=
  JObj [(js "summary",
         JStr (if (800 <? length transcript)%nat
               then take 800 transcript ++ js "..."
               else transcript));
        (js "keyPoints", JArr []);
        (js "quizQuestions", JArr [])].

(** A double-quoted piece of the prompt. *)
Definition q (s : string) : jsstring := dq ++ js s ++ dq.

Definition prompt_question (label answer closing : string) : jsstring :=
  js "    {" ++ q "question" ++ js ": " ++ q label ++ js ", "
     ++ q "options" ++ js ": [" ++ q "A" ++ js ", " ++ q "B" ++ js ", "
     ++ q "C" ++ js ", " ++ q "D" ++ js "], "
     ++ q "correctAnswer" ++ js ": " ++ q answer ++ js closing.

Definition prompt_of (text : jsstring) : jsstring :=
  js "Analyze this video transcript and create educational content."
  ++ nl ++ nl ++ js "TRANSCRIPT:"
  ++ nl ++ text
  ++ nl ++ nl ++ js "Return ONLY valid JSON (no markdown, no explanation):"
  ++ nl ++ js "{"
  ++ nl ++ js "  " ++ q "summary" ++ js ": " ++ q "2-3 paragraph summary" ++ js ","
  ++ nl ++ js "  " ++ q "keyPoints" ++ js ": [" ++ q "point1" ++ js ", "
     ++ q "point2" ++ js ", " ++ q "point3" ++ js ", " ++ q "point4" ++ js ", "
     ++ q "point5" ++ js "],"
  ++ nl ++ js "  " ++ q "quizQuestions" ++ js ": ["
  ++ nl ++ prompt_question "Q1?" "A" "},"
  ++ nl ++ prompt_question "Q2?" "B" "},"
  ++ nl ++ prompt_question "Q3?" "C" "},"
  ++ nl ++ prompt_question "Q4?" "D" "},"
  ++ nl ++ prompt_question "Q5?" "A" "},"
  ++ nl ++ prompt_question "Q6?" "B" "},"
  ++ nl ++ prompt_question "Q7?" "C" "},"
  ++ nl ++ prompt_question "Q8?" "D" "},"
  ++ nl ++ prompt_question "Q9?" "A" "},"
  ++ nl ++ prompt_question "Q10?" "B" "}"
  ++ nl ++ js "  ]"
  ++ nl ++ js "}".

(** [v[0]] *)
Definition get_first (v : jsval) : error + jsval :=
  match v with
  | JUndefined | JNull => inl TypeError
  | JArr (x :: _) => inr x
  | JStr (c :: _) => inr (JStr [c])
  | JObj props => inr (lookup_prop (js "0") props)
  | _ => inr JUndefined
  end.

(** [response.choices[0].message.content.trim()] *)
Definition reply_content (response : jsval) : error + jsstring :=
  match get_prop response "choices" with
  | inl e => inl e
  | inr choices =>
      match get_first choices with
      | inl e => inl e
      | inr choice =>
          match get_prop choice "message" with
          | inl e => inl e
          | inr message =>
              match get_prop message "content" with
              | inl e => inl e
              | inr (JStr content) => inr (trim content)
              | inr _ => inl TypeError
              end
          end
      end
  end.

(** [.replace(/```json\n?/g, '')] *)
Fixpoint strip_json_fences (s : jsstring) : jsstring :=
  match s with
  | [] => []
  | c0 :: s0 =>
      match s0 with
      | c1 :: c2 :: c3 :: c4 :: c5 :: c6 :: s' =>
          if (c0 =? 96) && (c1 =? 96) && (c2 =? 96) && (c3 =? 106)
             && (c4 =? 115) && (c5 =? 111) && (c6 =? 110)
          then
            match s' with
            | c7 :: s'' => if c7 =? 10 then strip_json_fences s'' else strip_json_fences s'
            | [] => []
            end
          else c0 :: strip_json_fences s0
      | _ => c0 :: strip_json_fences s0
      end
  end.

(** [.replace(/```\n?/g, '')] *)
Fixpoint strip_fences (s : jsstring) : jsstring :=
  match s with
  | [] => []
  | c0 :: s0 =>
      match s0 with
      | c1 :: c2 :: s' =>
          if (c0 =? 96) && (c1 =? 96) && (c2 =? 96)
          then
            match s' with
            | c3 :: s'' => if c3 =? 10 then strip_fences s'' else strip_fences s'
            | [] => []
            end
          else c0 :: strip_fences s0
      | _ => c0 :: strip_fences s0
      end
  end.

(** [indexOf(c)]; [None] is the answer -1. *)
Fixpoint indexOf (c : N) (s : jsstring) : option nat :=
  match s with
  | [] => None
  | x :: s' => if x =? c then Some O else option_map S (indexOf c s')
  end.

(** [lastIndexOf(c)]; [None] is the answer -1. *)
Fixpoint lastIndexOf (c : N) (s : jsstring) : option nat :=
  match s with
  | [] => None
  | x :: s' =>
      match lastIndexOf c s' with
      | Some i => Some (S i)
      | None => if x =? c then Some O else None
      end
  end.

(** [substring(a, b)] on indices that are natural numbers: the arguments are
    swapped when [a > b], and both are clamped to the length. *)
Definition substring (a b : nat) (s : jsstring) : jsstring :=
  take (Nat.max a b - Nat.min a b) (drop (Nat.min a b) s).

(** The text between the first opening and the last closing brace, when
    both are there. *)
Definition extract_object (content : jsstring) : jsstring :=
  match indexOf 123 content, lastIndexOf 125 content with
  | Some start, Some end_ => substring start (end_ + 1) content
  | _, _ => content
  end.

(** What the reply becomes before it is parsed. *)
Definition clean_reply (content : jsstring) : jsstring :=
  extract_object (strip_fences (strip_json_fences content)).

Definition generateLearningContent
    (parse : jsstring -> error + jsval)
    (groq : option (jsstring -> error + jsval))
    (transcript : jsstring) : error + jsval :=
  let text := truncated transcript in
  match groq with
  | None => inr (local_content text)
  | Some _ =>
      let prompt := prompt_of text in
      match groq with
      | None => inr (simple_content transcript)
      | Some create =>
          match create prompt with
          | inl e => inl e
          | inr response =>
              match reply_content response with
              | inl e => inl e
              | inr content => parse (clean_reply content)
              end
          end
      end
  end.

End Content.

(** A sentence as the pattern finds it: characters that end no sentence,
    then the marks that end it. *)
Definition sentence_shape (x : jsstring) : Prop :=
  exists body marks,
    x = body ++ marks
    /\ body <> [] /\ marks <> []
    /\ Forall (fun c => Content.is_terminator c = false) body
    /\ Forall (fun c => Content.is_terminator c = true) marks.

(** A key point candidate: starting with no white space, longer than forty characters, ending in
    an end mark. *)
Definition key_point_shape (x : jsstring) : Prop :=
  (40 < length x)%nat
  /\ (exists init mark, x = init ++ [mark] /\ Content.is_terminator mark = true)
  /\ match x with
     | [] => True
     | c :: _ => is_js_space c = false
     end.

(** ** [processTranscript] *)

(** [!transcript || transcript.trim().length < 50]; [trim] exists on strings
    only. *)
Definition transcript_rejected (transcript : jsval) : error + bool :=
  if negb (truthy transcript) then inr true
  else
    match transcript with
    | JStr s => inr (length (trim s) <? 50)%nat
    | _ => inl TypeError
    end.

(** [exports.processTranscript]: [reqBody] is [req.body]. *)
Definition processTranscript (E : Env) (reqBody : jsval) : M response :=
  try_catch
    (transcript ← lift (get_prop reqBody "transcript");
     title ← lift (get_prop reqBody "title");
     rejected ← lift (transcript_rejected transcript);
     if (rejected : bool)
     then mret (Response 400
                  (error_json "Please provide a transcript with at least 50 characters"))
     else
       content ← call_generateLearningContent E transcript;
       summary ← lift (get_prop content "summary");
       keyPoints ← lift (get_prop content "keyPoints");
       quizQuestions ← lift (get_prop content "quizQuestions");
       mret (Response 200
               (Json (JObj [(js "title", js_or title (S_ "Direct Transcript"));
                            (js "transcript", transcript);
                            (js "summary", summary);
                            (js "keyPoints", js_or keyPoints (JArr []));
                            (js "quizQuestions", js_or quizQuestions (JArr []));
                            (js "createdAt", new_Date E)]))))
    (fun error => mret (Response 500 (ErrorOf error))).

(** No API key: the content generator of the handlers is the local fallback. *)
Definition local_env : Env :=
  {| dirname := js "/app/controllers";
     path_join := fun a b => a ++ js "/" ++ b;
     JSON_parse := no_parse;
     fetchTranscript := no_fetch;
     exec := no_run;
     axios_get := no_get;
     Video_findOne := fun _ => inr JNull;
     Video_save := fun v => inr v;
     generateLearningContent := fun transcript =>
       match transcript with
       | JStr t => Content.generateLearningContent no_parse None t
       | _ => inl TypeError
       end;
     new_Date := JStr (js "2024-01-01T00:00:00.000Z") |}.

(** A transcript of fifty-seven characters between spaces, none of its
    sentences long enough for a key point. *)
Definition short_talk : jsstring :=
  js "  Python is a language. It has lists. It has functions too.   ".

(** A transcript of two sentences, the first of fifty-three characters once
    trimmed, the second too short for a key point. *)
Definition long_talk : jsstring :=
  js "  Python is a programming language used in many fields. It is fun.".

(** A string is accepted by a sequence of classes, character by character. *)
Definition accepts (p : list cclass) (m : jsstring) : Prop :=
  Forall2 (fun (k : cclass) c => k c = true) p m.

(** * Properties *)

(** ** Pattern matching *)

Lemma match_classes_Some p s m r :
  match_classes p s = Some (m, r) <-> s = m ++ r /\ accepts p m.
Proof.
  revert s m r. induction p as [|k p IH]; intros s m r; simpl.
  - split.
    + intros [= <- <-]. split; [reflexivity | constructor].
    + intros [-> H]. inversion H. reflexivity.
  - destruct s as [|c s].
    + split; [discriminate|]. intros [Hs H]. inversion H; subst. discriminate.
    + destruct (k c) eqn:Hk.
      * destruct (match_classes p s) as [[m' r']|] eqn:Hm.
        -- apply IH in Hm as [-> Hacc]. split.
           ++ intros [= <- <-]. split; [reflexivity | constructor; assumption].
           ++ intros [Hs H]. inversion H as [|k0 c0 p0 m0 Hc Hrest]; subst.
              simpl in Hs. injection Hs as <- Hs.
              assert (Hlen : length m' = length m0).
              { apply Forall2_length in Hacc, Hrest. congruence. }
              apply app_inj_1 in Hs as [-> ->]; [reflexivity | assumption].
        -- split; [discriminate|]. intros [Hs H].
           inversion H as [|k0 c0 p0 m0 Hc Hrest]; subst.
           simpl in Hs. injection Hs as <- ->.
           assert (Hx : match_classes p (m0 ++ r) = Some (m0, r)) by (apply IH; auto).
           congruence.
      * split; [discriminate|]. intros [Hs H].
        inversion H as [|k0 c0 p0 m0 Hc Hrest]; subst.
        simpl in Hs. injection Hs as <- _. congruence.
Qed.

Lemma match_classes_None p s :
  match_classes p s = None <-> forall m r, s = m ++ r -> ~ accepts p m.
Proof.
  split.
  - intros H m r Hs Hacc.
    assert (Hx : match_classes p s = Some (m, r)) by (apply match_classes_Some; auto).
    congruence.
  - intros H. destruct (match_classes p s) as [[m r]|] eqn:Hm; [|reflexivity].
    apply match_classes_Some in Hm as [Hs Hacc]. exfalso. eapply H; eauto.
Qed.

Lemma accepts_lits (str : string) m : accepts (lits str) m <-> m = js str.
Proof.
  unfold lits, accepts. generalize (js str) as l. intros l. revert m.
  induction l as [|c l IH]; intros m; simpl.
  - split; [intros H; inversion H; reflexivity | intros ->; constructor].
  - split.
    + intros H. inversion H as [|k0 c0 p0 m0 Hc Hrest]; subst.
      apply N.eqb_eq in Hc as <-. f_equal. apply IH. assumption.
    + intros ->. constructor; [apply N.eqb_refl | apply IH; reflexivity].
Qed.

Lemma accepts_id_group m : accepts id_group m <-> is_video_id m.
Proof.
  unfold id_group, is_video_id, accepts. generalize 11%nat as n.
  intros n. revert m. induction n as [|n IH]; intros m; simpl.
  - split.
    + intros H. inversion H. split; [reflexivity | constructor].
    + intros [Hl _]. destruct m; [constructor | discriminate].
  - split.
    + intros H. inversion H as [|k0 c0 p0 m0 Hc Hrest]; subst.
      apply IH in Hrest as [Hl Hall]. split; [simpl; congruence | constructor; assumption].
    + intros [Hl Hall]. destruct m as [|c m]; [discriminate|].
      inversion Hall; subst. constructor; [assumption|].
      apply IH. split; [simpl in Hl; congruence | assumption].
Qed.

Lemma match_here_Some p s g :
  match_here p s = Some g <->
  exists lead post, s = lead ++ g ++ post /\ accepts p lead /\ is_video_id g.
Proof.
  unfold match_here. split.
  - destruct (match_classes p s) as [[lead r]|] eqn:Hp; [|discriminate].
    destruct (match_classes id_group r) as [[g' post]|] eqn:Hg; [|discriminate].
    intros [= <-]. apply match_classes_Some in Hp as [-> Hlead].
    apply match_classes_Some in Hg as [-> Hid]. apply accepts_id_group in Hid.
    exists lead, post. auto.
  - intros (lead & post & -> & Hlead & Hid).
    assert (Hp : match_classes p (lead ++ g ++ post) = Some (lead, g ++ post))
      by (apply match_classes_Some; auto).
    assert (Hg : match_classes id_group (g ++ post) = Some (g, post)).
    { apply match_classes_Some. split; [reflexivity | apply accepts_id_group; assumption]. }
    rewrite Hp, Hg. reflexivity.
Qed.

Lemma re_search_Some {A} (m : jsstring -> option A) s r :
  re_search m s = Some r <->
  exists n, m (drop n s) = Some r /\ forall k, (k < n)%nat -> m (drop k s) = None.
Proof.
  induction s as [|c s IH]; simpl.
  - destruct (m []) as [a|] eqn:Hm.
    + split.
      * intros [= <-]. exists 0%nat. split; [assumption | intros; lia].
      * intros (n & Hn & _). rewrite drop_nil in Hn. congruence.
    + split; [discriminate|]. intros (n & Hn & _). rewrite drop_nil in Hn. congruence.
  - destruct (m (c :: s)) as [a|] eqn:Hm.
    + split.
      * intros [= <-]. exists 0%nat. split; [assumption | intros; lia].
      * intros (n & Hn & Hlt). destruct n as [|n]; [simpl in Hn; congruence|].
        specialize (Hlt 0%nat ltac:(lia)). simpl in Hlt. congruence.
    + rewrite IH. split.
      * intros (n & Hn & Hlt). exists (S n). split; [assumption|].
        intros [|k] Hk; [assumption | apply Hlt; lia].
      * intros (n & Hn & Hlt). destruct n as [|n]; [simpl in Hn; congruence|].
        exists n. split; [assumption|]. intros k Hk. apply (Hlt (S k)). lia.
Qed.

Lemma re_search_None {A} (m : jsstring -> option A) s :
  re_search m s = None <-> forall n, m (drop n s) = None.
Proof.
  induction s as [|c s IH]; simpl.
  - destruct (m []) as [a|] eqn:Hm.
    + split; [discriminate|]. intros H. specialize (H 0%nat). simpl in H. congruence.
    + split; [|reflexivity]. intros _ n. rewrite drop_nil. assumption.
  - destruct (m (c :: s)) as [a|] eqn:Hm.
    + split; [discriminate|]. intros H. specialize (H 0%nat). simpl in H. congruence.
    + rewrite IH. split.
      * intros H [|n]; [assumption | apply H].
      * intros H n. apply (H (S n)).
Qed.

Section Occurrences.
Variable p : list cclass.
Variable lead_ok : jsstring -> Prop.
Hypothesis p_lead : forall lead, accepts p lead <-> lead_ok lead.

Lemma occurs_match_here s n id :
  occurs lead_ok s n id <->
  (n <= length s)%nat /\ match_here p (drop n s) = Some id.
Proof using p_lead.
  unfold occurs. rewrite match_here_Some. split.
  - intros (pre & lead & post & -> & <- & Hlead & Hid). split.
    + rewrite length_app. lia.
    + rewrite drop_app_length. exists lead, post. rewrite p_lead. auto.
  - intros (Hn & lead & post & Hs & Hlead & Hid).
    exists (take n s), lead, post. rewrite <- Hs, take_drop.
    rewrite length_take, <- p_lead.
    split; [reflexivity|]. split; [lia|]. split; assumption.
Qed.

Lemma first_occurrence_search s id :
  first_occurrence lead_ok s id <-> re_search (match_here p) s = Some id.
Proof using p_lead.
  unfold first_occurrence. rewrite re_search_Some. split.
  - intros (n & Hocc & Hfirst). apply occurs_match_here in Hocc as [Hn Hm].
    exists n. split; [assumption|]. intros k Hk.
    destruct (match_here p (drop k s)) as [id'|] eqn:Hk'; [|reflexivity].
    exfalso. apply (Hfirst k id' Hk). apply occurs_match_here. split; [lia | assumption].
  - intros (n & Hm & Hfirst).
    assert (Hn : (n <= length s)%nat).
    { destruct (le_lt_dec n (length s)) as [|Hgt]; [assumption|].
      specialize (Hfirst (length s) Hgt).
      rewrite drop_all in Hfirst. rewrite drop_ge in Hm by lia. congruence. }
    exists n. split.
    + apply occurs_match_here. auto.
    + intros k id' Hk Hocc. apply occurs_match_here in Hocc as [_ Hocc].
      rewrite (Hfirst k Hk) in Hocc. discriminate.
Qed.

Lemma no_occurrence_search s :
  no_occurrence lead_ok s <-> re_search (match_here p) s = None.
Proof using p_lead.
  unfold no_occurrence. rewrite re_search_None. split.
  - intros H n. destruct (match_here p (drop n s)) as [id|] eqn:Hm; [|reflexivity].
    exfalso. destruct (le_lt_dec n (length s)) as [Hle|Hgt].
    + apply (H n id). apply occurs_match_here. auto.
    + apply (H (length s) id). apply occurs_match_here. split; [lia|].
      rewrite drop_all. rewrite drop_ge in Hm by lia. assumption.
  - intros H n id Hocc. apply occurs_match_here in Hocc as [_ Hocc].
    rewrite H in Hocc. discriminate.
Qed.
End Occurrences.

Lemma accepts_query lead : accepts (qmark_or_amp :: lits "v=") lead <-> query_lead lead.
Proof.
  unfold query_lead. split.
  - intros H. inversion H as [|k0 c0 p0 m0 Hc Hrest]; subst.
    apply (accepts_lits "v=") in Hrest as ->. unfold qmark_or_amp in Hc.
    apply orb_true_iff in Hc as [Hc|Hc]; apply N.eqb_eq in Hc as ->; auto.
  - intros [-> | ->]; (constructor; [reflexivity | apply (accepts_lits "v="); reflexivity]).
Qed.

Lemma accepts_short lead : accepts (lits "youtu.be/") lead <-> short_lead lead.
Proof. apply accepts_lits. Qed.

Lemma accepts_embed lead : accepts (lits "youtube.com/embed/") lead <-> embed_lead lead.
Proof. apply accepts_lits. Qed.

Lemma re_bare_Some s id : re_bare s = Some id <-> s = id /\ is_video_id id.
Proof.
  unfold re_bare. split.
  - destruct (match_classes id_group s) as [[g r]|] eqn:Hg; [|discriminate].
    destruct r; [|discriminate]. intros [= <-].
    apply match_classes_Some in Hg as [-> Hid]. rewrite app_nil_r.
    split; [reflexivity | apply accepts_id_group; assumption].
  - intros [-> Hid].
    assert (Hg : match_classes id_group id = Some (id, [])).
    { apply match_classes_Some. rewrite app_nil_r.
      split; [reflexivity | apply accepts_id_group; assumption]. }
    rewrite Hg. reflexivity.
Qed.

Lemma extractVideoId_refines url r :
  extractVideoId url = r <-> extract_spec url r.
Proof.
  unfold extractVideoId, re_query, re_short, re_embed. split.
  - intros <-.
    destruct (re_search _ (trim url)) as [id|] eqn:Hq.
    { apply spec_query. eapply first_occurrence_search; [apply accepts_query | exact Hq]. }
    apply (no_occurrence_search _ _ accepts_query) in Hq.
    destruct (re_search (match_here (lits "youtu.be/")) (trim url)) as [id|] eqn:Hs.
    { apply spec_short; [assumption|].
      eapply first_occurrence_search; [apply accepts_short | exact Hs]. }
    apply (no_occurrence_search _ _ accepts_short) in Hs.
    destruct (re_search (match_here (lits "youtube.com/embed/")) (trim url)) as [id|] eqn:He.
    { apply spec_embed; [assumption..|].
      eapply first_occurrence_search; [apply accepts_embed | exact He]. }
    apply (no_occurrence_search _ _ accepts_embed) in He.
    destruct (re_bare (trim url)) as [id|] eqn:Hb.
    { apply re_bare_Some in Hb as [<- Hid]. apply spec_bare; assumption. }
    apply spec_none; try assumption. intros Hid.
    assert (Hx : re_bare (trim url) = Some (trim url)) by (apply re_bare_Some; auto).
    congruence.
  - intros H. destruct H as [id Hq | id Hq Hs | id Hq Hs He | Hq Hs He Hb | Hq Hs He Hb].
    + apply (first_occurrence_search _ _ accepts_query) in Hq. rewrite Hq. reflexivity.
    + apply (no_occurrence_search _ _ accepts_query) in Hq.
      apply (first_occurrence_search _ _ accepts_short) in Hs. rewrite Hq, Hs. reflexivity.
    + apply (no_occurrence_search _ _ accepts_query) in Hq.
      apply (no_occurrence_search _ _ accepts_short) in Hs.
      apply (first_occurrence_search _ _ accepts_embed) in He. rewrite Hq, Hs, He. reflexivity.
    + apply (no_occurrence_search _ _ accepts_query) in Hq.
      apply (no_occurrence_search _ _ accepts_short) in Hs.
      apply (no_occurrence_search _ _ accepts_embed) in He.
      assert (Hx : re_bare (trim url) = Some (trim url)) by (apply re_bare_Some; auto).
      rewrite Hq, Hs, He, Hx. reflexivity.
    + apply (no_occurrence_search _ _ accepts_query) in Hq.
      apply (no_occurrence_search _ _ accepts_short) in Hs.
      apply (no_occurrence_search _ _ accepts_embed) in He.
      rewrite Hq, Hs, He.
      destruct (re_bare (trim url)) as [id|] eqn:Hx; [|reflexivity].
      apply re_bare_Some in Hx as [<- Hid]. contradiction.
Qed.

(** ** Identifier characters, trimming, and strings of identifier characters *)

Lemma idchar_cases c :
  idchar c = true ->
  97 <= c <= 122 \/ 65 <= c <= 90 \/ 48 <= c <= 57 \/ c = 95 \/ c = 45.
Proof.
  unfold idchar. rewrite !orb_true_iff, !andb_true_iff, !N.leb_le, !N.eqb_eq. tauto.
Qed.

Lemma idchar_not_space c : idchar c = true -> is_js_space c = false.
Proof.
  intros H. apply idchar_cases in H. unfold is_js_space.
  rewrite !orb_false_iff, !andb_false_iff, !N.eqb_neq, !N.leb_gt. lia.
Qed.

Lemma trim_end_app s t :
  t <> [] -> Forall (fun c => is_js_space c = false) t -> trim_end (s ++ t) = s ++ t.
Proof.
  intros Hne Hall. unfold trim_end. rewrite rev_app_distr.
  destruct (rev t) as [|c r] eqn:Hr.
  - apply (f_equal (@rev N)) in Hr. rewrite rev_involutive in Hr. contradiction.
  - assert (Hc : is_js_space c = false).
    { rewrite Forall_forall in Hall. apply Hall. apply list_elem_of_In, in_rev.
      change (rev t) with (List.rev t) in Hr. rewrite Hr. left. reflexivity. }
    simpl. rewrite Hc. change (c :: r ++ rev s) with ((c :: r) ++ rev s).
    rewrite <- Hr, <- rev_app_distr, rev_involutive. reflexivity.
Qed.

Lemma trim_token t : Forall (fun c => idchar c = true) t -> trim t = t.
Proof.
  intros Hall. assert (Hs : Forall (fun c => is_js_space c = false) t).
  { eapply Forall_impl; [exact Hall | apply idchar_not_space]. }
  unfold trim. destruct t as [|c t]; [reflexivity|].
  inversion Hs; subst. simpl. rewrite H1.
  apply (trim_end_app [] (c :: t)); [discriminate | assumption].
Qed.

Lemma trim_url c s t :
  is_js_space c = false -> t <> [] -> Forall (fun c => idchar c = true) t ->
  trim (c :: s ++ t) = c :: s ++ t.
Proof.
  intros Hc Hne Hall. unfold trim. simpl. rewrite Hc.
  apply (trim_end_app (c :: s) t); [assumption|].
  eapply Forall_impl; [exact Hall | apply idchar_not_space].
Qed.

(** A lead-in that needs a character the string does not have occurs
    nowhere in it. *)
Lemma no_occurrence_avoid (lead_ok : jsstring -> Prop) (needed : N -> bool) s :
  (forall lead, lead_ok lead -> Exists (fun c => needed c = true) lead) ->
  Forall (fun c => needed c = false) s ->
  no_occurrence lead_ok s.
Proof.
  intros Hlead Hs n id (pre & lead & post & -> & _ & Hok & _).
  apply Hlead in Hok. apply Forall_app in Hs as [_ Hs]. apply Forall_app in Hs as [Hs _].
  apply Exists_exists in Hok as (c & Hin & Hc).
  rewrite Forall_forall in Hs. specialize (Hs c Hin). congruence.
Qed.

Lemma query_lead_needs lead :
  query_lead lead -> Exists (fun c => qmark_or_amp c = true) lead.
Proof. intros [-> | ->]; left; reflexivity. Qed.

Lemma short_lead_needs lead : short_lead lead -> Exists (fun c => lit 47 c = true) lead.
Proof. intros ->. vm_compute. repeat first [left; reflexivity | right]. Qed.

Lemma embed_lead_needs lead : embed_lead lead -> Exists (fun c => lit 47 c = true) lead.
Proof. intros ->. vm_compute. repeat first [left; reflexivity | right]. Qed.

Lemma idchar_no_qmark_amp c : idchar c = true -> qmark_or_amp c = false.
Proof.
  intros H. apply idchar_cases in H. unfold qmark_or_amp.
  rewrite orb_false_iff, !N.eqb_neq. lia.
Qed.

Lemma idchar_no_slash c : idchar c = true -> lit 47 c = false.
Proof.
  intros H. apply idchar_cases in H. unfold lit. rewrite N.eqb_neq. lia.
Qed.

Lemma re_query_avoid s :
  Forall (fun c => qmark_or_amp c = false) s -> re_query s = None.
Proof.
  intros H. apply (no_occurrence_search _ _ accepts_query).
  eapply no_occurrence_avoid; [apply query_lead_needs | exact H].
Qed.

Lemma re_short_avoid s :
  Forall (fun c => lit 47 c = false) s -> re_short s = None.
Proof.
  intros H. apply (no_occurrence_search _ _ accepts_short).
  eapply no_occurrence_avoid; [apply short_lead_needs | exact H].
Qed.

Lemma re_embed_avoid s :
  Forall (fun c => lit 47 c = false) s -> re_embed s = None.
Proof.
  intros H. apply (no_occurrence_search _ _ accepts_embed).
  eapply no_occurrence_avoid; [apply embed_lead_needs | exact H].
Qed.

Lemma re_search_skip {A} (m : jsstring -> option A) c s :
  m (c :: s) = None -> re_search m (c :: s) = re_search m s.
Proof. intros H. simpl. rewrite H. reflexivity. Qed.

Lemma re_search_hit {A} (m : jsstring -> option A) s r :
  m s = Some r -> re_search m s = Some r.
Proof. intros H. destruct s; simpl; rewrite H; reflexivity. Qed.

(** At a lead-in followed by twelve or more identifier characters the
    pattern matches, and its group is the first eleven of them. *)
Lemma match_here_long_token p lead tok :
  accepts p lead -> Forall (fun c => idchar c = true) tok -> (11 <= length tok)%nat ->
  match_here p (lead ++ tok) = Some (take 11 tok).
Proof.
  intros Hlead Hall Hlen. apply match_here_Some.
  exists lead, (drop 11 tok). rewrite take_drop. split; [reflexivity|].
  split; [assumption|]. split.
  - rewrite length_take. lia.
  - apply Forall_take. assumption.
Qed.

Lemma re_bare_token tok :
  Forall (fun c => idchar c = true) tok ->
  re_bare tok = if (length tok =? 11)%nat then Some tok else None.
Proof.
  intros Hall. destruct (Nat.eqb_spec (length tok) 11) as [Hl|Hl].
  - apply re_bare_Some. split; [reflexivity | split; assumption].
  - destruct (re_bare tok) as [id|] eqn:Hb; [|reflexivity].
    apply re_bare_Some in Hb as [<- [Hlen _]]. contradiction.
Qed.

Lemma extractVideoId_token tok :
  Forall (fun c => idchar c = true) tok ->
  extractVideoId tok = if (length tok =? 11)%nat then Some tok else None.
Proof.
  intros Hall. unfold extractVideoId. rewrite (trim_token _ Hall).
  rewrite re_query_avoid
    by (eapply Forall_impl; [exact Hall | apply idchar_no_qmark_amp]).
  rewrite re_short_avoid, re_embed_avoid
    by (eapply Forall_impl; [exact Hall | apply idchar_no_slash]).
  rewrite (re_bare_token _ Hall). destruct (length tok =? 11)%nat; reflexivity.
Qed.

(** ** The extractor *)

Ltac eval_js :=
  repeat match goal with
         | |- context [js ?s] =>
             let v := eval vm_compute in (js s) in change (js s) with v
         end;
  cbn [app].

Ltac skip_positions := repeat (rewrite re_search_skip by reflexivity).

Lemma token_not_nil (tok : jsstring) : (11 <= length tok)%nat -> tok <> [].
Proof. intros H ->. simpl in H. lia. Qed.

Lemma watch_url_long_token tok :
  Forall (fun c => idchar c = true) tok -> (11 <= length tok)%nat ->
  extractVideoId (js "https://www.youtube.com/watch?v=" ++ tok) = Some (take 11 tok).
Proof.
  intros Hall Hlen. unfold extractVideoId.
  assert (Htrim : trim (js "https://www.youtube.com/watch?v=" ++ tok)
                  = js "https://www.youtube.com/watch?v=" ++ tok).
  { exact (trim_url 104 (List.tl (js "https://www.youtube.com/watch?v=")) tok
             eq_refl (token_not_nil tok Hlen) Hall). }
  rewrite Htrim. clear Htrim.
  assert (Hq : re_query (js "https://www.youtube.com/watch?v=" ++ tok) = Some (take 11 tok)).
  { unfold re_query. eval_js. skip_positions. apply re_search_hit.
    apply (match_here_long_token _ [63; 118; 61] tok); [|assumption..].
    apply accepts_query. left. reflexivity. }
  rewrite Hq. reflexivity.
Qed.

Lemma short_url_long_token tok :
  Forall (fun c => idchar c = true) tok -> (11 <= length tok)%nat ->
  extractVideoId (js "https://youtu.be/" ++ tok) = Some (take 11 tok).
Proof.
  intros Hall Hlen. unfold extractVideoId.
  assert (Htrim : trim (js "https://youtu.be/" ++ tok) = js "https://youtu.be/" ++ tok).
  { exact (trim_url 104 (List.tl (js "https://youtu.be/")) tok
             eq_refl (token_not_nil tok Hlen) Hall). }
  rewrite Htrim. clear Htrim.
  assert (Hq : re_query (js "https://youtu.be/" ++ tok) = None).
  { apply re_query_avoid. apply Forall_app. split.
    - vm_compute. repeat constructor.
    - eapply Forall_impl; [exact Hall | apply idchar_no_qmark_amp]. }
  assert (Hs : re_short (js "https://youtu.be/" ++ tok) = Some (take 11 tok)).
  { unfold re_short. eval_js. skip_positions. apply re_search_hit.
    apply (match_here_long_token _ (js "youtu.be/") tok); [|assumption..].
    apply accepts_short. reflexivity. }
  rewrite Hq, Hs. reflexivity.
Qed.

Lemma embed_url_long_token tok :
  Forall (fun c => idchar c = true) tok -> (11 <= length tok)%nat ->
  extractVideoId (js "https://www.youtube.com/embed/" ++ tok) = Some (take 11 tok).
Proof.
  intros Hall Hlen. unfold extractVideoId.
  assert (Htrim : trim (js "https://www.youtube.com/embed/" ++ tok)
                  = js "https://www.youtube.com/embed/" ++ tok).
  { exact (trim_url 104 (List.tl (js "https://www.youtube.com/embed/")) tok
             eq_refl (token_not_nil tok Hlen) Hall). }
  rewrite Htrim. clear Htrim.
  assert (Hq : re_query (js "https://www.youtube.com/embed/" ++ tok) = None).
  { apply re_query_avoid. apply Forall_app. split.
    - vm_compute. repeat constructor.
    - eapply Forall_impl; [exact Hall | apply idchar_no_qmark_amp]. }
  assert (Hs : re_short (js "https://www.youtube.com/embed/" ++ tok) = None).
  { unfold re_short. eval_js. skip_positions. apply re_short_avoid.
    eapply Forall_impl; [exact Hall | apply idchar_no_slash]. }
  assert (He : re_embed (js "https://www.youtube.com/embed/" ++ tok) = Some (take 11 tok)).
  { unfold re_embed. eval_js. skip_positions. apply re_search_hit.
    apply (match_here_long_token _ (js "youtube.com/embed/") tok); [|assumption..].
    apply accepts_embed. reflexivity. }
  rewrite Hq, Hs, He. reflexivity.
Qed.

Lemma extract_spec_video_id url id : extract_spec url (Some id) -> is_video_id id.
Proof.
  intros H. inversion H as [id' Hq | id' _ Hs | id' _ _ He | _ _ _ Hb | ]; subst.
  - destruct Hq as (n & (pre & lead & post & _ & _ & _ & Hid) & _). exact Hid.
  - destruct Hs as (n & (pre & lead & post & _ & _ & _ & Hid) & _). exact Hid.
  - destruct He as (n & (pre & lead & post & _ & _ & _ & Hid) & _). exact Hid.
  - exact Hb.
Qed.

(** C5. [extractVideoId] tries, in order, the query-parameter, short-link,
    embed and bare forms on the trimmed input and answers with the
    identifier of the first form that applies, at its leftmost occurrence;
    when no form applies the answer is [None] (JavaScript's null).  The
    function is total and deterministic: every input has exactly one answer
    allowed by the specification, and an answer is always eleven identifier
    characters.  A string of identifier characters of any other length, the
    empty string and ["not a url"] give [None]; the watch URL and the bare
    identifier of the scenario give the identifier. *)
Theorem C5_extractVideoId_forms :
  (forall url r, extractVideoId url = r <-> extract_spec url r)
  /\ (forall url, exists r, extract_spec url r /\ forall r', extract_spec url r' -> r' = r)
  /\ (forall url, match extractVideoId url with
                  | Some id => is_video_id id
                  | None => True
                  end)
  /\ (forall tok, Forall (fun c => idchar c = true) tok -> length tok <> 11%nat ->
                  extractVideoId tok = None)
  /\ extractVideoId [] = None
  /\ extractVideoId (js "https://www.youtube.com/watch?v=dQw4w9WgXcQ") = Some (js "dQw4w9WgXcQ")
  /\ extractVideoId (js "dQw4w9WgXcQ") = Some (js "dQw4w9WgXcQ")
  /\ extractVideoId (js "not a url") = None.
Proof.
  split; [exact extractVideoId_refines|].
  split.
  { intros url. exists (extractVideoId url). split.
    - apply extractVideoId_refines. reflexivity.
    - intros r' H. apply extractVideoId_refines in H. congruence. }
  split.
  { intros url. destruct (extractVideoId url) as [id|] eqn:H; [|exact I].
    apply extractVideoId_refines in H. eapply extract_spec_video_id. exact H. }
  split.
  { intros tok Hall Hlen. rewrite (extractVideoId_token _ Hall).
    destruct (Nat.eqb_spec (length tok) 11); [contradiction | reflexivity]. }
  repeat split; vm_compute; reflexivity.
Qed.

(** The ten-character token [dQw4w9WgXc] is refused, and the specification
    allows no other answer for ["not a url"]. *)
Lemma C5_extractVideoId_forms_witness :
  extractVideoId (js "dQw4w9WgXc") = None
  /\ extract_spec (js "not a url") None.
Proof.
  split.
  - apply (proj1 (proj2 (proj2 (proj2 C5_extractVideoId_forms)))).
    + vm_compute. repeat constructor.
    + vm_compute. lia.
  - apply (proj1 (proj1 C5_extractVideoId_forms (js "not a url") None)).
    vm_compute. reflexivity.
Defined.

(** C10. The query-parameter, short-link and embed patterns have no
    right-hand boundary: behind [v=] (or the path segment) a token of twelve
    or more identifier characters yields its first eleven characters.  Only
    the bare form is anchored at both ends: a string of identifier characters
    is accepted as a whole exactly when it has eleven of them. *)
Theorem C10_no_right_boundary (tok : jsstring) :
  Forall (fun c => idchar c = true) tok ->
  ((12 <= length tok)%nat ->
     extractVideoId (js "https://www.youtube.com/watch?v=" ++ tok) = Some (take 11 tok)
     /\ extractVideoId (js "https://youtu.be/" ++ tok) = Some (take 11 tok)
     /\ extractVideoId (js "https://www.youtube.com/embed/" ++ tok) = Some (take 11 tok)
     /\ extractVideoId tok = None)
  /\ extractVideoId tok = (if (length tok =? 11)%nat then Some tok else None).
Proof.
  intros Hall. split.
  - intros Hlen. split; [|split; [|split]].
    + apply watch_url_long_token; [assumption | lia].
    + apply short_url_long_token; [assumption | lia].
    + apply embed_url_long_token; [assumption | lia].
    + rewrite (extractVideoId_token _ Hall).
      destruct (Nat.eqb_spec (length tok) 11); [lia | reflexivity].
  - apply extractVideoId_token. assumption.
Qed.

(** The twelve-character token [dQw4w9WgXcQZ]. *)
Lemma C10_no_right_boundary_witness :
  extractVideoId (js "https://www.youtube.com/watch?v=dQw4w9WgXcQZ") = Some (js "dQw4w9WgXcQ")
  /\ extractVideoId (js "https://youtu.be/dQw4w9WgXcQZ") = Some (js "dQw4w9WgXcQ")
  /\ extractVideoId (js "https://www.youtube.com/embed/dQw4w9WgXcQZ") = Some (js "dQw4w9WgXcQ")
  /\ extractVideoId (js "dQw4w9WgXcQZ") = None.
Proof.
  assert (Hall : Forall (fun c => idchar c = true) (js "dQw4w9WgXcQZ"))
    by (vm_compute; repeat constructor).
  assert (Hlen : (12 <= length (js "dQw4w9WgXcQZ"))%nat) by (vm_compute; lia).
  exact (proj1 (C10_no_right_boundary (js "dQw4w9WgXcQZ") Hall) Hlen).
Defined.

(** ** The audio bridge *)

Lemma unlink_if_exists_run p w :
  unlink_if_exists p w = (inr tt, World (files w ∖ {[p]}) (calls w)).
Proof.
  unfold unlink_if_exists, existsSync, unlinkSync, when_, mbind, M_bind, mret, M_ret.
  destruct w as [fs cs]. simpl.
  destruct (bool_decide_reflect (p ∈ fs)) as [Hin|Hout]; simpl.
  - rewrite bool_decide_eq_true_2 by assumption. reflexivity.
  - f_equal. f_equal. symmetry. apply difference_disjoint_L, disjoint_singleton_r. assumption.
Qed.

Lemma transcribeAudio_unfold E videoId w :
  transcribeAudio E videoId w =
  let f := expectedAudioFile E videoId in
  let c1 := calls w ++ [CallExec (ytDlp_command E videoId)] in
  match exec E (ytDlp_command E videoId) (files w ∖ {[f]}) with
  | (ExecFailed e, fs1) => (inl e, World (fs1 ∖ {[f]}) c1)
  | (ExecDone _, fs1) =>
      if bool_decide (f ∈ fs1) then
        match exec E (whisper_command E videoId) fs1 with
        | (r2, fs2) =>
            (match r2 with
             | ExecFailed e => inl e
             | ExecDone stdout => parse_segments E stdout
             end,
             World (fs2 ∖ {[f]}) (c1 ++ [CallExec (whisper_command E videoId)]))
        end
      else (inl (Error (js "Audio file not created after yt-dlp run")), World fs1 c1)
  end.
Proof.
  unfold transcribeAudio, download_audio.
  unfold mbind, M_bind, try_catch at 1.
  rewrite unlink_if_exists_run. unfold run_exec. simpl.
  destruct (exec E (ytDlp_command E videoId) _) as [[e|out] fs1]; simpl.
  - unfold throw. rewrite unlink_if_exists_run. reflexivity.
  - unfold mret, M_ret, existsSync. simpl.
    destruct (bool_decide_reflect (expectedAudioFile E videoId ∈ fs1)) as [Hin|Hout]; simpl.
    + destruct (exec E (whisper_command E videoId) fs1) as [r2 fs2].
      rewrite unlink_if_exists_run. simpl.
      destruct r2 as [e|stdout]; [reflexivity|].
      unfold try_catch, lift, throw. destruct (parse_segments E stdout); reflexivity.
    + unfold throw. rewrite unlink_if_exists_run. simpl. f_equal. f_equal.
      apply difference_disjoint_L, disjoint_singleton_r. assumption.
Qed.

Lemma removed_file_gone (p : jsstring) (fs : gset jsstring) : p ∉ fs ∖ {[p]}.
Proof. rewrite elem_of_difference, elem_of_singleton. tauto. Qed.

Lemma remove_twice (p : jsstring) (fs : gset jsstring) :
  (fs ∖ {[p]}) ∖ {[p]} = fs ∖ {[p]}.
Proof. apply difference_disjoint_L, disjoint_singleton_r, removed_file_gone. Qed.

Lemma transcribeAudio_file_gone E videoId w :
  expectedAudioFile E videoId ∉ files (snd (transcribeAudio E videoId w)).
Proof.
  rewrite transcribeAudio_unfold. cbv zeta.
  destruct (exec E (ytDlp_command E videoId) _) as [[e|out] fs1]; simpl.
  - apply removed_file_gone.
  - destruct (bool_decide_reflect (expectedAudioFile E videoId ∈ fs1)) as [Hin|Hout].
    + destruct (exec E (whisper_command E videoId) fs1) as [r2 fs2]. simpl.
      apply removed_file_gone.
    + exact Hout.
Qed.

(** C3. Whatever the download tool and the transcription subprocess do, and
    whatever was on disk, the audio file of the request is not on disk once
    [transcribeAudio] has settled.  A file left at that path is removed
    before the download runs (the run is the same as on a disk without it);
    when the download fails, the file is removed from what the tool left
    behind before the failure is passed on; and once the transcription
    subprocess has returned, with an error or with output, the file is
    removed from the disk it left. *)
Theorem C3_audio_file_deleted_on_every_path (E : Env) (videoId : jsstring) (w : world) :
  let f := expectedAudioFile E videoId in
  (f ∉ files (snd (transcribeAudio E videoId w)))
  /\ (transcribeAudio E videoId w
      = transcribeAudio E videoId (World (files w ∖ {[f]}) (calls w)))
  /\ (forall e fs1,
        exec E (ytDlp_command E videoId) (files w ∖ {[f]}) = (ExecFailed e, fs1) ->
        fst (transcribeAudio E videoId w) = inl e
        /\ files (snd (transcribeAudio E videoId w)) = fs1 ∖ {[f]})
  /\ (forall out fs1 r2 fs2,
        exec E (ytDlp_command E videoId) (files w ∖ {[f]}) = (ExecDone out, fs1) ->
        f ∈ fs1 ->
        exec E (whisper_command E videoId) fs1 = (r2, fs2) ->
        files (snd (transcribeAudio E videoId w)) = fs2 ∖ {[f]}).
Proof.
  intros f. split; [apply transcribeAudio_file_gone|]. split; [|split].
  - rewrite !transcribeAudio_unfold. cbv zeta. simpl. fold f.
    rewrite remove_twice. reflexivity.
  - intros e fs1 H. rewrite transcribeAudio_unfold. cbv zeta. fold f.
    rewrite H. simpl. auto.
  - intros out fs1 r2 fs2 H1 Hin H2. rewrite transcribeAudio_unfold. cbv zeta. fold f.
    rewrite H1, (bool_decide_eq_true_2 _ Hin), H2. reflexivity.
Qed.

(** A stale file is on disk before the call and gone after it, with a
    transcription that succeeds and with a download that fails. *)
Lemma C3_audio_file_deleted_on_every_path_witness :
  expectedAudioFile empty_segments_env video0 ∈ files stale_world
  /\ (expectedAudioFile empty_segments_env video0
      ∉ files (snd (transcribeAudio empty_segments_env video0 stale_world)))
  /\ fst (transcribeAudio all_fail_env video0 stale_world)
     = inl (Error (js "Command failed")).
Proof.
  split; [|split].
  - apply (bool_decide_unpack _). vm_compute. exact I.
  - exact (proj1 (C3_audio_file_deleted_on_every_path empty_segments_env video0 stale_world)).
  - refine (proj1 (proj1 (proj2 (proj2
             (C3_audio_file_deleted_on_every_path all_fail_env video0 stale_world)))
             (Error (js "Command failed")) _ _)).
    reflexivity.
Defined.

(** ** Conversions to a string *)

Lemma traverse_inr {A B} (f : A -> error + B) l ys :
  traverse f l = inr ys <-> Forall2 (fun x y => f x = inr y) l ys.
Proof.
  revert ys. induction l as [|x l IH]; intros ys; simpl.
  - split; [intros [= <-]; constructor | intros H; inversion H; reflexivity].
  - destruct (f x) as [e|y] eqn:Hx.
    + split; [discriminate|]. intros H. inversion H as [|? y' ? ys' Hy Hl]; subst.
      rewrite Hx in Hy. discriminate.
    + destruct (traverse f l) as [e|zs] eqn:Ht.
      * split; [discriminate|]. intros H. inversion H as [|? y' ? ys' Hy Hl]; subst.
        apply IH in Hl. discriminate.
      * split.
        -- intros [= <-]. constructor; [exact Hx | apply IH; reflexivity].
        -- intros H. inversion H as [|? y' ? ys' Hy Hl]; subst.
           apply IH in Hl. congruence.
Qed.

Lemma traverse_inl {A B} (f : A -> error + B) l e :
  traverse f l = inl e -> exists x, In x l /\ f x = inl e.
Proof.
  induction l as [|x l IH]; simpl; [discriminate|].
  destruct (f x) as [e'|y] eqn:Hx.
  - intros [= <-]. exists x. auto.
  - destruct (traverse f l) as [e'|ys]; [|discriminate].
    intros [= <-]. destruct (IH eq_refl) as (x' & Hin & Hx'). exists x'. auto.
Qed.

Lemma traverse_map {A B C} (f : B -> error + C) (g : A -> B) l :
  traverse f (List.map g l) = traverse (fun x => f (g x)) l.
Proof. induction l as [|x l IH]; simpl; [reflexivity|]. rewrite IH. reflexivity. Qed.

(** Joining the results of [g] succeeds exactly when every one of them can
    be converted, and then gives the conversions with [sep] between them. *)
Lemma join_map_inr {A} sep (g : A -> jsval) (l : list A) s :
  join sep (List.map g l) = inr s <->
  exists texts,
    Forall2 (fun x t => join_elem (g x) = inr t) l texts /\ s = intercalate sep texts.
Proof.
  unfold join. rewrite traverse_map.
  destruct (traverse (fun x => join_elem (g x)) l) as [e|ys] eqn:Ht.
  - split; [discriminate|]. intros (texts & H & _).
    apply (traverse_inr (fun x => join_elem (g x))) in H. congruence.
  - apply (traverse_inr (fun x => join_elem (g x))) in Ht. split.
    + intros [= <-]. exists ys. auto.
    + intros (texts & H & ->).
      apply (traverse_inr (fun x => join_elem (g x))) in Ht, H.
      congruence.
Qed.

Lemma join_strings sep (l : list jsstring) :
  join sep (List.map JStr l) = inr (intercalate sep l).
Proof.
  apply join_map_inr. exists l. split; [|reflexivity].
  induction l; constructor; auto.
Qed.

(** Induction on a value, with the elements of an array at hand. *)
Lemma jsval_elements_ind (P : jsval -> Prop) :
  P JUndefined -> P JNull -> (forall b, P (JBool b)) ->
  (forall falsy repr, P (JNum falsy repr)) -> (forall s, P (JStr s)) ->
  (forall items, Forall P items -> P (JArr items)) ->
  (forall props, P (JObj props)) ->
  forall v, P v.
Proof.
  intros Hu Hn Hb Hnum Hs Ha Ho. fix IH 1.
  intros [ | | b | falsy repr | s | items | props];
    [exact Hu | exact Hn | apply Hb | apply Hnum | apply Hs | | apply Ho].
  apply Ha. induction items as [|x l IHl]; constructor; [apply IH | exact IHl].
Qed.

(** An array converts as its [join(",")]. *)
Lemma ToString_JArr items : ToString (JArr items) = join (js ",") items.
Proof.
  unfold join. cbn [ToString].
  match goal with
  | |- match ?a with _ => _ end = match ?b with _ => _ end =>
      assert (Hab : a = b); [|rewrite Hab; reflexivity]
  end.
  induction items as [|x l IHl]; [reflexivity|].
  cbn [traverse]. rewrite IHl. cbn [join_elem]. reflexivity.
Qed.

(** The engine raises nothing but a [TypeError] in a conversion. *)
Lemma ToString_error v : forall e, ToString v = inl e -> e = TypeError.
Proof.
  induction v as [ | | b | falsy repr | s | items IH | props] using jsval_elements_ind;
    intros e; try discriminate.
  - destruct b; discriminate.
  - rewrite ToString_JArr. unfold join.
    destruct (traverse join_elem items) as [e'|ys] eqn:Ht; [|discriminate].
    intros [= <-]. apply traverse_inl in Ht as (x & Hin & Hx).
    rewrite Forall_forall in IH. apply list_elem_of_In in Hin.
    destruct x; try discriminate; apply (IH _ Hin _ Hx).
  - cbn [ToString]. destruct (has_own _ props); [|discriminate].
    intros [= <-]. reflexivity.
Qed.

Lemma join_error sep l e : join sep l = inl e -> e = TypeError.
Proof.
  unfold join. destruct (traverse join_elem l) as [e'|ys] eqn:Ht; [|discriminate].
  intros [= <-]. apply traverse_inl in Ht as (x & _ & Hx).
  destruct x; try discriminate; apply (ToString_error _ _ Hx).
Qed.

Lemma new_Error_truthy v :
  truthy v = true ->
  new_Error v = match ToString v with
                | inl e => inl e
                | inr message => inr (Error message)
                end.
Proof. destruct v; try discriminate; reflexivity. Qed.

(** [{"toString": 1}] cannot be converted, alone or as an element, while
    an object without a [toString] of its own can. *)
Example unconvertible_object :
  ToString (JObj [(js "toString", JNum false (js "1"))]) = inl TypeError
  /\ join (js " ") [S_ "Hello"; JObj [(js "toString", JNum false (js "1"))]]
     = inl TypeError
  /\ join (js " ") [S_ "Hello"; JObj [(js "text", S_ "world")]; JNull]
     = inr (js "Hello [object Object] ").
Proof. repeat split; vm_compute; reflexivity. Qed.

(** ** Reading the transcription output *)

Lemma get_prop_object k v : nullish v = false -> get_prop v k = inr (prop_of k v).
Proof. destruct v; simpl; intros H; try discriminate; reflexivity. Qed.

Lemma get_prop_nullish k v : nullish v = true -> get_prop v k = inl TypeError.
Proof. destruct v; simpl; intros H; try discriminate; reflexivity. Qed.

Lemma map_err_props k l :
  map_err (fun v => get_prop v k) l
  = if all_objects l then inr (List.map (prop_of k) l) else inl TypeError.
Proof.
  induction l as [|v l IH]; simpl; [reflexivity|].
  destruct (nullish v) eqn:Hv; simpl.
  - rewrite (get_prop_nullish _ _ Hv). reflexivity.
  - rewrite (get_prop_object _ _ Hv), IH. fold (all_objects l).
    destruct (all_objects l); reflexivity.
Qed.

(** What the Whisper callback makes of the subprocess output. *)
Lemma parse_segments_cases E stdout :
  parse_segments E stdout =
  match JSON_parse E stdout with
  | inl parseError => inl parseError
  | inr (JArr segments) =>
      if all_objects segments
      then
        match join (js " ") (List.map (prop_of "text") segments) with
        | inl e => inl e
        | inr fullText => inr (JStr fullText)
        end
      else inl TypeError
  | inr (JObj props) =>
      if truthy (lookup_prop (js "error") props)
      then
        match new_Error (lookup_prop (js "error") props) with
        | inl e => inl e
        | inr rejection => inl rejection
        end
      else inl TypeError
  | inr _ => inl TypeError
  end.
Proof.
  unfold parse_segments. destruct (JSON_parse E stdout) as [e|v]; [reflexivity|].
  destruct v; cbn [get_prop truthy js_map]; try reflexivity.
  rewrite map_err_props. destruct (all_objects items); reflexivity.
Qed.

Lemma all_objects_Forall l : all_objects l = true <-> Forall (fun v => nullish v = false) l.
Proof.
  unfold all_objects. rewrite forallb_forall, Forall_forall. split.
  - intros H v Hin. apply list_elem_of_In, H in Hin. destruct (nullish v); [discriminate | reflexivity].
  - intros H v Hin. apply list_elem_of_In, H in Hin. rewrite Hin. reflexivity.
Qed.

Lemma transcribeAudio_download_failed E videoId w e fs1 :
  exec E (ytDlp_command E videoId) (files w ∖ {[expectedAudioFile E videoId]})
  = (ExecFailed e, fs1) ->
  fst (transcribeAudio E videoId w) = inl e.
Proof. intros H. rewrite transcribeAudio_unfold. cbv zeta. rewrite H. reflexivity. Qed.

Lemma transcribeAudio_file_absent E videoId w out fs1 :
  exec E (ytDlp_command E videoId) (files w ∖ {[expectedAudioFile E videoId]})
  = (ExecDone out, fs1) ->
  expectedAudioFile E videoId ∉ fs1 ->
  fst (transcribeAudio E videoId w)
  = inl (Error (js "Audio file not created after yt-dlp run")).
Proof.
  intros H Hout. rewrite transcribeAudio_unfold. cbv zeta.
  rewrite H, (bool_decide_eq_false_2 _ Hout). reflexivity.
Qed.

Lemma transcribeAudio_transcribed E videoId w out fs1 r2 fs2 :
  exec E (ytDlp_command E videoId) (files w ∖ {[expectedAudioFile E videoId]})
  = (ExecDone out, fs1) ->
  expectedAudioFile E videoId ∈ fs1 ->
  exec E (whisper_command E videoId) fs1 = (r2, fs2) ->
  fst (transcribeAudio E videoId w)
  = match r2 with
    | ExecFailed e => inl e
    | ExecDone stdout => parse_segments E stdout
    end.
Proof.
  intros H Hin H2. rewrite transcribeAudio_unfold. cbv zeta.
  rewrite H, (bool_decide_eq_true_2 _ Hin), H2. reflexivity.
Qed.

Lemma parse_segments_success E stdout v :
  parse_segments E stdout = inr v <->
  exists segments texts,
    JSON_parse E stdout = inr (JArr segments)
    /\ Forall (fun s => nullish s = false) segments
    /\ Forall2 (fun s t => join_elem (prop_of "text" s) = inr t) segments texts
    /\ v = JStr (intercalate (js " ") texts).
Proof.
  rewrite parse_segments_cases. split.
  - destruct (JSON_parse E stdout) as [e|parsed]; [discriminate|].
    destruct parsed; try discriminate.
    + destruct (all_objects items) eqn:Hall; [|discriminate].
      destruct (join _ _) as [e|fullText] eqn:Hj; [discriminate|].
      intros [= <-]. apply join_map_inr in Hj as (texts & Htexts & ->).
      exists items, texts. rewrite <- all_objects_Forall. auto.
    + destruct (truthy _); [destruct (new_Error _)|]; discriminate.
  - intros (segments & texts & -> & Hall & Htexts & ->).
    apply all_objects_Forall in Hall. rewrite Hall.
    rewrite (proj2 (join_map_inr (js " ") (prop_of "text") segments _)
               (ex_intro _ texts (conj Htexts eq_refl))).
    reflexivity.
Qed.

(** C8, as the code has it.  [transcribeAudio] resolves exactly when the
    download tool exits with success and has written the audio file, the
    speech-to-text subprocess exits with success, its output parses to an
    array none of whose elements is [undefined] or [null], and the [text] of
    every element can be converted to a string; the result is then these
    conversions joined by single spaces ([undefined] and [null] texts count
    as empty strings, so an array of strings or of numbers resolves too).
    It rejects when the download tool fails (with that error), when the file
    is absent after the download, when the subprocess fails (with that
    error), when the output does not parse (with the parse error), when the
    parsed value is an object with a truthy [error] property (with an
    [Error] whose message is that property as a string, or with a
    [TypeError] when it has none), and with a [TypeError] when the parsed
    value is no array, has an [undefined] or [null] element, or has an
    element whose [text] cannot be converted.  An output that parses to the
    empty array is a success whose text is empty. *)
Theorem C8_transcribeAudio_outcomes (E : Env) (videoId : jsstring) (w : world) :
  let f := expectedAudioFile E videoId in
  let disk := files w ∖ {[f]} in
  (forall v,
      fst (transcribeAudio E videoId w) = inr v <->
      exists out fs1 stdout fs2 segments texts,
        exec E (ytDlp_command E videoId) disk = (ExecDone out, fs1)
        /\ f ∈ fs1
        /\ exec E (whisper_command E videoId) fs1 = (ExecDone stdout, fs2)
        /\ JSON_parse E stdout = inr (JArr segments)
        /\ Forall (fun s => nullish s = false) segments
        /\ Forall2 (fun s t => join_elem (prop_of "text" s) = inr t) segments texts
        /\ v = JStr (intercalate (js " ") texts))
  /\ (forall e fs1,
        exec E (ytDlp_command E videoId) disk = (ExecFailed e, fs1) ->
        fst (transcribeAudio E videoId w) = inl e)
  /\ (forall out fs1,
        exec E (ytDlp_command E videoId) disk = (ExecDone out, fs1) ->
        f ∉ fs1 ->
        fst (transcribeAudio E videoId w)
        = inl (Error (js "Audio file not created after yt-dlp run")))
  /\ (forall out fs1 r2 fs2,
        exec E (ytDlp_command E videoId) disk = (ExecDone out, fs1) ->
        f ∈ fs1 ->
        exec E (whisper_command E videoId) fs1 = (r2, fs2) ->
        fst (transcribeAudio E videoId w)
        = match r2 with
          | ExecFailed e => inl e
          | ExecDone stdout =>
              match JSON_parse E stdout with
              | inl parseError => inl parseError
              | inr (JObj props) =>
                  if truthy (lookup_prop (js "error") props)
                  then
                    match ToString (lookup_prop (js "error") props) with
                    | inr message => inl (Error message)
                    | inl _ => inl TypeError
                    end
                  else inl TypeError
              | inr (JArr segments) =>
                  if all_objects segments
                  then
                    match join (js " ") (List.map (prop_of "text") segments) with
                    | inr fullText => inr (JStr fullText)
                    | inl _ => inl TypeError
                    end
                  else inl TypeError
              | inr _ => inl TypeError
              end
          end)
  /\ (forall out fs1 stdout fs2,
        exec E (ytDlp_command E videoId) disk = (ExecDone out, fs1) ->
        f ∈ fs1 ->
        exec E (whisper_command E videoId) fs1 = (ExecDone stdout, fs2) ->
        JSON_parse E stdout = inr (JArr []) ->
        fst (transcribeAudio E videoId w) = inr (JStr [])).
Proof.
  intros f disk. split; [|split; [|split; [|split]]].
  - intros v. split.
    + rewrite transcribeAudio_unfold. cbv zeta. fold f. fold disk.
      destruct (exec E (ytDlp_command E videoId) disk) as [[e|out] fs1] eqn:H1;
        [discriminate|].
      destruct (bool_decide_reflect (f ∈ fs1)) as [Hin|Hout]; [|discriminate].
      destruct (exec E (whisper_command E videoId) fs1) as [[e|stdout] fs2] eqn:H2;
        [discriminate|].
      simpl. intros Hp.
      apply parse_segments_success in Hp as (segments & texts & Hj & Hall & Htexts & ->).
      exists out, fs1, stdout, fs2, segments, texts. auto 10.
    + intros (out & fs1 & stdout & fs2 & segments & texts
              & H1 & Hin & H2 & Hj & Hall & Htexts & ->).
      rewrite (transcribeAudio_transcribed _ _ _ _ _ _ _ H1 Hin H2).
      apply parse_segments_success. exists segments, texts. auto.
  - intros e fs1 H. eapply transcribeAudio_download_failed. exact H.
  - intros out fs1 H Hout. eapply transcribeAudio_file_absent; eassumption.
  - intros out fs1 r2 fs2 H1 Hin H2.
    rewrite (transcribeAudio_transcribed _ _ _ _ _ _ _ H1 Hin H2).
    destruct r2 as [e|stdout]; [reflexivity|].
    rewrite parse_segments_cases.
    destruct (JSON_parse E stdout) as [e|parsed]; [reflexivity|].
    destruct parsed as [ | | | | | items | props]; try reflexivity.
    + destruct (all_objects items); [|reflexivity].
      destruct (join _ _) as [e|fullText] eqn:Hj; [|reflexivity].
      rewrite (join_error _ _ _ Hj). reflexivity.
    + destruct (truthy _) eqn:Ht; [|reflexivity].
      rewrite (new_Error_truthy _ Ht).
      destruct (ToString _) as [e|message] eqn:Hs; [|reflexivity].
      rewrite (ToString_error _ _ Hs). reflexivity.
  - intros out fs1 stdout fs2 H1 Hin H2 Hparse.
    rewrite (transcribeAudio_transcribed _ _ _ _ _ _ _ H1 Hin H2).
    rewrite parse_segments_cases, Hparse. reflexivity.
Qed.

(** The download fails: [transcribeAudio] rejects with the tool's error.  The
    download and the transcription succeed and the script prints [[]]:
    [transcribeAudio] resolves with the empty text. *)
Lemma C8_transcribeAudio_outcomes_witness :
  fst (transcribeAudio all_fail_env video0 world0) = inl (Error (js "Command failed"))
  /\ fst (transcribeAudio empty_segments_env video0 world0) = inr (JStr []).
Proof.
  split.
  - refine (proj1 (proj2 (C8_transcribeAudio_outcomes all_fail_env video0 world0))
              (Error (js "Command failed")) _ _).
    reflexivity.
  - refine (proj2 (proj1 (C8_transcribeAudio_outcomes empty_segments_env video0 world0)
                     (JStr [])) _).
    exists [], {[ expectedAudioFile all_fail_env video0 ]}, (js "[]"),
      {[ expectedAudioFile all_fail_env video0 ]}, [], [].
    split; [|split; [|split; [|split; [|split; [|split]]]]].
    + vm_compute. reflexivity.
    + apply (bool_decide_unpack _). vm_compute. exact I.
    + vm_compute. reflexivity.
    + vm_compute. reflexivity.
    + constructor.
    + constructor.
    + reflexivity.
Defined.

(** C8 as the specification words it fails: the subprocess succeeds and prints
    an empty array of segments, and [transcribeAudio] resolves with the empty
    text instead of failing. *)
Lemma C8_empty_segments_counterexample :
  JSON_parse empty_segments_env (js "[]") = inr (JArr [])
  /\ fst (transcribeAudio empty_segments_env video0 world0) = inr (JStr [])
  /\ ~ (exists e, fst (transcribeAudio empty_segments_env video0 world0) = inl e).
Proof.
  split; [vm_compute; reflexivity|]. split; [vm_compute; reflexivity|].
  intros [e He]. vm_compute in He. discriminate.
Qed.

(** ** The orchestrator, method by method *)

Ltac run_monad :=
  unfold mbind, M_bind, mret, M_ret, try_catch, throw, lift,
    call_fetchTranscript, call_axios_get, run_exec in *; cbv beta match.

Lemma method1_run E videoId w :
  method1 E videoId w =
  (inr match fetchTranscript E videoId with
       | inr (JArr (first :: more)) =>
           if all_objects (first :: more)
           then
             match join (js " ") (List.map (prop_of "text") (first :: more)) with
             | inr fullText => Some (JStr fullText)
             | inl _ => None
             end
           else None
       | _ => None
       end,
   World (files w) (calls w ++ [CallFetchTranscript videoId])).
Proof.
  unfold method1, method1_body. run_monad.
  destruct (fetchTranscript E videoId) as [e|v]; [reflexivity|].
  destruct v as [ | | | | | items | ]; try reflexivity.
  destruct items as [|first more]; [reflexivity|].
  rewrite map_err_props. destruct (all_objects (first :: more)); [|reflexivity].
  destruct (join _ _); reflexivity.
Qed.

(** The outcome of one run of the caption script, as method 2 sees it. *)
Lemma script_run_outcome E stdout w :
  (let '(r, w') :=
     try_catch
       (result ← lift (JSON_parse E stdout);
        success ← lift (get_prop result "success");
        if truthy success then lift (get_prop result "transcript")
        else
          e ← lift (get_prop result "error");
          rejection ← lift (new_Error e);
          throw rejection)
       (fun e => throw e) w in
   (match r with
    | inr transcript =>
        match read_length transcript with
        | inr _ => Some transcript
        | inl _ => None
        end
    | inl _ => None
    end, w'))
  = (script_transcript E stdout, w).
Proof.
  unfold script_transcript. run_monad.
  destruct (JSON_parse E stdout) as [e|v]; [reflexivity|].
  destruct v; simpl; try reflexivity.
  destruct (truthy _); [reflexivity|].
  destruct (new_Error _); reflexivity.
Qed.

Lemma method2_run E videoId w :
  method2 E videoId w =
  match exec E (python_command E videoId) (files w) with
  | (ExecDone stdout, fs1) =>
      (inr (script_transcript E stdout),
       World fs1 (calls w ++ [CallExec (python_command E videoId)]))
  | (ExecFailed _, fs1) =>
      match exec E (python3_command E videoId) fs1 with
      | (ExecDone stdout2, fs2) =>
          (inr (script_transcript E stdout2),
           World fs2 ((calls w ++ [CallExec (python_command E videoId)])
                        ++ [CallExec (python3_command E videoId)]))
      | (ExecFailed _, fs2) =>
          (inr None,
           World fs2 ((calls w ++ [CallExec (python_command E videoId)])
                        ++ [CallExec (python3_command E videoId)]))
      end
  end.
Proof.
  unfold method2, python_promise.
  unfold mbind at 1, M_bind at 1, try_catch at 1, mbind at 1, M_bind at 1.
  unfold mbind at 1, M_bind at 1, run_exec at 1.
  destruct (exec E (python_command E videoId) (files w)) as [[e|stdout] fs1].
  - unfold mbind at 1, M_bind at 1, run_exec at 1. cbn [files calls].
    destruct (exec E (python3_command E videoId) fs1) as [[e2|stdout2] fs2].
    + reflexivity.
    + pose proof (script_run_outcome E stdout2
                    (World fs2 ((calls w ++ [CallExec (python_command E videoId)])
                                  ++ [CallExec (python3_command E videoId)]))) as H.
      destruct (try_catch _ _ _) as [[e'|t] w'].
      * injection H as <- <-. reflexivity.
      * injection H as <- <-. unfold lift.
        destruct (read_length t) as [e'|[]]; reflexivity.
  - pose proof (script_run_outcome E stdout
                  (World fs1 (calls w ++ [CallExec (python_command E videoId)]))) as H.
    destruct (try_catch _ _ _) as [[e'|t] w'].
    + injection H as <- <-. reflexivity.
    + injection H as <- <-. unfold lift.
      destruct (read_length t) as [e'|[]]; reflexivity.
Qed.

Lemma method3_run E videoId w :
  method3 E videoId w =
  let c1 := calls w ++ [CallAxiosGet (videoUrl_of videoId)] in
  match axios_get E (videoUrl_of videoId) with
  | inr (JStr html) =>
      match re_search match_baseUrl_here html with
      | Some group1 =>
          let captionUrl := unescape_amp group1 ++ js "&fmt=json3" in
          (inr match axios_get E captionUrl with
               | inr data => timedtext_transcript data
               | inl _ => None
               end,
           World (files w) (c1 ++ [CallAxiosGet captionUrl]))
      | None => (inr None, World (files w) c1)
      end
  | _ => (inr None, World (files w) c1)
  end.
Proof.
  unfold method3, method3_body, timedtext_transcript, html_match. run_monad.
  destruct (axios_get E (videoUrl_of videoId)) as [e|html]; [reflexivity|].
  destruct html as [ | | | | html | | ]; try reflexivity.
  destruct (re_search match_baseUrl_here html) as [group1|]; [|reflexivity].
  cbv zeta. cbn [files calls].
  destruct (axios_get E _) as [e|data]; [reflexivity|].
  destruct (truthy data); [|reflexivity].
  destruct (get_prop data "events") as [e|events]; [reflexivity|].
  destruct (truthy events); [|reflexivity].
  destruct (js_map event_text events) as [e|texts]; [reflexivity|].
  destruct (join _ texts); reflexivity.
Qed.

Lemma method3_calls E videoId w :
  exists r rest,
    method3 E videoId w
    = (inr r, World (files w) (calls w ++ CallAxiosGet (videoUrl_of videoId) :: rest)).
Proof.
  rewrite method3_run. cbv zeta.
  destruct (axios_get E (videoUrl_of videoId)) as [e|html].
  { exists None, []. reflexivity. }
  destruct html as [ | | | | html | | ]; try (exists None, []; reflexivity).
  destruct (re_search match_baseUrl_here html) as [group1|].
  - eexists _, [_]. rewrite <- app_assoc. reflexivity.
  - exists None, []. reflexivity.
Qed.

Lemma method4_run E videoId w :
  method4 E videoId w =
  (inr match fst (transcribeAudio E videoId w) with
       | inr text => Some text
       | inl _ => None
       end,
   snd (transcribeAudio E videoId w)).
Proof.
  unfold method4. run_monad.
  destruct (transcribeAudio E videoId w) as [[e|text] w']; reflexivity.
Qed.

Lemma transcribeAudio_calls E videoId w :
  exists rest, calls (snd (transcribeAudio E videoId w)) = calls w ++ rest.
Proof.
  rewrite transcribeAudio_unfold. cbv zeta.
  destruct (exec E (ytDlp_command E videoId) _) as [[e|out] fs1].
  - eexists. reflexivity.
  - destruct (bool_decide _).
    + destruct (exec E (whisper_command E videoId) fs1) as [r2 fs2].
      eexists. cbn [snd calls]. rewrite <- app_assoc. reflexivity.
    + eexists. reflexivity.
Qed.

(** The orchestrator returns at the first method that returns. *)
Lemma getTranscript_method1 E videoId w0 t w1 :
  method1 E videoId w0 = (inr (Some t), w1) ->
  getTranscript E videoId w0 = (inr t, w1).
Proof. intros H1. unfold getTranscript. run_monad. rewrite H1. reflexivity. Qed.

Lemma getTranscript_method2 E videoId w0 w1 t w2 :
  method1 E videoId w0 = (inr None, w1) ->
  method2 E videoId w1 = (inr (Some t), w2) ->
  getTranscript E videoId w0 = (inr t, w2).
Proof. intros H1 H2. unfold getTranscript. run_monad. rewrite H1, H2. reflexivity. Qed.

Lemma getTranscript_method3 E videoId w0 w1 w2 t w3 :
  method1 E videoId w0 = (inr None, w1) ->
  method2 E videoId w1 = (inr None, w2) ->
  method3 E videoId w2 = (inr (Some t), w3) ->
  getTranscript E videoId w0 = (inr t, w3).
Proof.
  intros H1 H2 H3. unfold getTranscript. run_monad. rewrite H1, H2, H3. reflexivity.
Qed.

Lemma getTranscript_method4 E videoId w0 w1 w2 w3 :
  method1 E videoId w0 = (inr None, w1) ->
  method2 E videoId w1 = (inr None, w2) ->
  method3 E videoId w2 = (inr None, w3) ->
  getTranscript E videoId w0 =
  (match fst (transcribeAudio E videoId w3) with
   | inr text => inr text
   | inl _ => inl (Error (js "Could not fetch transcript from any source"))
   end,
   snd (transcribeAudio E videoId w3)).
Proof.
  intros H1 H2 H3. unfold getTranscript. run_monad.
  rewrite H1, H2, H3, method4_run.
  destruct (fst (transcribeAudio E videoId w3)); reflexivity.
Qed.

(** Methods 1 to 3 absorb their own failures. *)
Lemma method1_total E videoId w : exists r w', method1 E videoId w = (inr r, w').
Proof. rewrite method1_run. eauto. Qed.

Lemma method2_total E videoId w : exists r w', method2 E videoId w = (inr r, w').
Proof.
  rewrite method2_run.
  destruct (exec E (python_command E videoId) (files w)) as [[e|stdout] fs1]; eauto.
  destruct (exec E (python3_command E videoId) fs1) as [[e2|stdout2] fs2]; eauto.
Qed.

Lemma method3_total E videoId w : exists r w', method3 E videoId w = (inr r, w').
Proof. destruct (method3_calls E videoId w) as (r & rest & H). eauto. Qed.

(** ** Joining texts *)

Lemma intercalate_nil_sep (l : list jsstring) : intercalate [] l = List.concat l.
Proof.
  induction l as [|x l IH]; [reflexivity|].
  destruct l as [|y l]; simpl in *; [rewrite app_nil_r; reflexivity|].
  rewrite IH. reflexivity.
Qed.

Lemma map_err_strings (f : jsval -> error + jsval) l (ts : list jsstring) :
  Forall2 (fun v t => f v = inr (JStr t)) l ts ->
  map_err f l = inr (List.map JStr ts).
Proof.
  induction 1 as [|v t l ts Hv _ IH]; simpl; [reflexivity|].
  rewrite Hv, IH. reflexivity.
Qed.

Lemma has_text_object item t : has_text item t -> nullish item = false.
Proof. unfold has_text. destruct item; simpl; intros H; try discriminate; reflexivity. Qed.

Lemma has_text_prop_of item t : has_text item t -> prop_of "text" item = JStr t.
Proof.
  intros H. pose proof (has_text_object _ _ H) as Hn.
  unfold has_text in H. rewrite (get_prop_object _ _ Hn) in H. congruence.
Qed.

Lemma texts_of_items items texts :
  Forall2 has_text items texts ->
  all_objects items = true /\ List.map (prop_of "text") items = List.map JStr texts.
Proof.
  induction 1 as [|item t items texts Hi _ [IH1 IH2]]; simpl; [auto|].
  rewrite (has_text_object _ _ Hi), (has_text_prop_of _ _ Hi). simpl.
  fold (all_objects items). rewrite IH1, IH2. auto.
Qed.

(** ** The first method *)

Lemma getTranscript_items E videoId w items fullText :
  fetchTranscript E videoId = inr (JArr items) ->
  items <> [] ->
  all_objects items = true ->
  join (js " ") (List.map (prop_of "text") items) = inr fullText ->
  getTranscript E videoId w
  = (inr (JStr fullText),
     World (files w) (calls w ++ [CallFetchTranscript videoId])).
Proof.
  intros Hfetch Hne Hall Hjoin. apply getTranscript_method1.
  rewrite method1_run, Hfetch. destruct items as [|first more]; [contradiction|].
  rewrite Hall, Hjoin. reflexivity.
Qed.

(** C1. When the caption library returns a non-empty list of caption items,
    each with a string as its [text], [getTranscript] returns these texts
    joined by single spaces at once: the value is decided by the items
    alone, and the only collaborator called is the caption library, so no
    subprocess is started, no page is fetched and no file is touched,
    whatever the other collaborators would have done. *)
Theorem C1_method1_short_circuits (E : Env) (videoId : jsstring) (w : world)
    (items : list jsval) (texts : list jsstring) :
  fetchTranscript E videoId = inr (JArr items) ->
  items <> [] ->
  Forall2 has_text items texts ->
  getTranscript E videoId w
  = (inr (JStr (intercalate (js " ") texts)),
     World (files w) (calls w ++ [CallFetchTranscript videoId])).
Proof.
  intros Hfetch Hne Htexts. destruct (texts_of_items _ _ Htexts) as [Hall Hmap].
  apply (getTranscript_items E videoId w items _ Hfetch Hne Hall).
  rewrite Hmap. apply join_strings.
Qed.

(** Two items, collaborators that would all fail: one call, ["Hello world"]. *)
Lemma C1_method1_short_circuits_witness :
  getTranscript hello_env video0 world0
  = (inr (S_ "Hello world"), World ∅ [CallFetchTranscript video0]).
Proof.
  refine (C1_method1_short_circuits hello_env video0 world0 hello_items
            [js "Hello"; js "world"] eq_refl _ _).
  - discriminate.
  - repeat constructor.
Defined.

(** ** Exhaustion *)

Lemma getTranscript_error E videoId w e w' :
  getTranscript E videoId w = (inl e, w') ->
  e = Error (js "Could not fetch transcript from any source").
Proof.
  destruct (method1_total E videoId w) as ([t1|] & w1 & H1).
  { rewrite (getTranscript_method1 _ _ _ _ _ H1). discriminate. }
  destruct (method2_total E videoId w1) as ([t2|] & w2 & H2).
  { rewrite (getTranscript_method2 _ _ _ _ _ _ H1 H2). discriminate. }
  destruct (method3_total E videoId w2) as ([t3|] & w3 & H3).
  { rewrite (getTranscript_method3 _ _ _ _ _ _ _ H1 H2 H3). discriminate. }
  rewrite (getTranscript_method4 _ _ _ _ _ _ H1 H2 H3).
  destruct (fst (transcribeAudio E videoId w3)); [|discriminate].
  intros [= <- _]. reflexivity.
Qed.

(** C2, as the code has it.  Methods 1, 2 and 3 never pass an error on: each
    ends with a result or with nothing.  When they end with nothing and the
    audio fallback rejects, [getTranscript] fails with the fixed error
    ["Could not fetch transcript from any source"], which is also the only
    error it ever fails with; the cause of the fourth failure is not part of
    what the caller receives. *)
Theorem C2_all_methods_fail (E : Env) (videoId : jsstring) (w0 : world) :
  (forall w, exists r w', method1 E videoId w = (inr r, w'))
  /\ (forall w, exists r w', method2 E videoId w = (inr r, w'))
  /\ (forall w, exists r w', method3 E videoId w = (inr r, w'))
  /\ (forall w1 w2 w3 cause w4,
        method1 E videoId w0 = (inr None, w1) ->
        method2 E videoId w1 = (inr None, w2) ->
        method3 E videoId w2 = (inr None, w3) ->
        transcribeAudio E videoId w3 = (inl cause, w4) ->
        getTranscript E videoId w0
        = (inl (Error (js "Could not fetch transcript from any source")), w4))
  /\ (forall e w', getTranscript E videoId w0 = (inl e, w') ->
                   e = Error (js "Could not fetch transcript from any source")).
Proof.
  split; [apply method1_total|]. split; [apply method2_total|].
  split; [apply method3_total|]. split.
  - intros w1 w2 w3 cause w4 H1 H2 H3 H4.
    rewrite (getTranscript_method4 _ _ _ _ _ _ H1 H2 H3), H4. reflexivity.
  - intros e w' H. apply (getTranscript_error _ _ _ _ _ H).
Qed.

(** Every collaborator fails: the caller receives the fixed error. *)
Lemma C2_all_methods_fail_witness :
  fst (getTranscript all_fail_env video0 world0)
  = inl (Error (js "Could not fetch transcript from any source")).
Proof.
  pose proof (proj1 (proj2 (proj2 (proj2
    (C2_all_methods_fail all_fail_env video0 world0))))) as H.
  rewrite (H (snd (method1 all_fail_env video0 world0))
             (snd (method2 all_fail_env video0 (snd (method1 all_fail_env video0 world0))))
             (snd (method3 all_fail_env video0
                     (snd (method2 all_fail_env video0
                             (snd (method1 all_fail_env video0 world0))))))
             (Error (js "Command failed"))
             (snd (getTranscript all_fail_env video0 world0)));
    [reflexivity | vm_compute; reflexivity ..].
Defined.

(** C2 as the specification words it fails: every method fails, the fourth
    because the download tool fails with ["Command failed"], and the reported
    error is the fixed one, not that cause. *)
Lemma C2_last_cause_counterexample :
  fst (method1 all_fail_env video0 world0) = inr None
  /\ fst (transcribeAudio all_fail_env video0 world0) = inl (Error (js "Command failed"))
  /\ fst (getTranscript all_fail_env video0 world0)
     = inl (Error (js "Could not fetch transcript from any source"))
  /\ fst (getTranscript all_fail_env video0 world0) <> inl (Error (js "Command failed")).
Proof.
  repeat split; try (vm_compute; reflexivity).
  vm_compute. discriminate.
Qed.

(** ** The second method *)

Lemma python_promise_both_fail E videoId w e1 fs1 e2 fs2 :
  exec E (python_command E videoId) (files w) = (ExecFailed e1, fs1) ->
  exec E (python3_command E videoId) fs1 = (ExecFailed e2, fs2) ->
  python_promise E videoId w
  = (inl e1, World fs2 (calls w ++ [CallExec (python_command E videoId);
                                    CallExec (python3_command E videoId)])).
Proof.
  intros H1 H2. unfold python_promise. run_monad. rewrite H1. cbn [files calls].
  rewrite H2. rewrite <- app_assoc. reflexivity.
Qed.

(** C9. When the subprocess of the venv interpreter fails and the subprocess
    of the global [python3] fails as well, the promise of method 2 rejects
    with the error of the first; the error of the second appears nowhere in
    the outcome.  Method 2 then ends without a result. *)
Theorem C9_primary_error_reported (E : Env) (videoId : jsstring) (w : world)
    (e1 e2 : error) (fs1 fs2 : gset jsstring) :
  exec E (python_command E videoId) (files w) = (ExecFailed e1, fs1) ->
  exec E (python3_command E videoId) fs1 = (ExecFailed e2, fs2) ->
  python_promise E videoId w
  = (inl e1, World fs2 (calls w ++ [CallExec (python_command E videoId);
                                    CallExec (python3_command E videoId)]))
  /\ fst (method2 E videoId w) = inr None.
Proof.
  intros H1 H2. split; [apply (python_promise_both_fail _ _ _ _ _ _ _ H1 H2)|].
  rewrite method2_run, H1, H2. reflexivity.
Qed.

(** The venv interpreter cannot be spawned and [python3] exits with 1: the
    rejection carries the spawn error. *)
Lemma C9_primary_error_reported_witness :
  fst (python_promise both_pythons_fail_env video0 world0) = inl venv_error.
Proof.
  rewrite (proj1 (C9_primary_error_reported both_pythons_fail_env video0 world0
                    venv_error python3_error ∅ ∅ eq_refl eq_refl)).
  reflexivity.
Defined.

Lemma read_length_inr t :
  read_length t = inr tt <->
  nullish t = false
  /\ forall props, t = JObj props ->
       exists rendered, ToString (lookup_prop (js "length") props) = inr rendered.
Proof.
  destruct t as [ | | b | falsy repr | s | items | props]; simpl;
    try (split; [discriminate | intros [? _]; discriminate]);
    try (split; [intros _; split; [reflexivity | discriminate] | reflexivity]).
  destruct (ToString _) as [e|rendered] eqn:Hs.
  - split; [discriminate|]. intros [_ H].
    destruct (H props eq_refl) as [rendered Hr]. congruence.
  - split; [|reflexivity]. intros _. split; [reflexivity|].
    intros props' [= <-]. eauto.
Qed.

Lemma script_transcript_Some E stdout t :
  script_transcript E stdout = Some t <->
  exists props,
    JSON_parse E stdout = inr (JObj props)
    /\ truthy (lookup_prop (js "success") props) = true
    /\ lookup_prop (js "transcript") props = t
    /\ read_length t = inr tt.
Proof.
  unfold script_transcript. split.
  - destruct (JSON_parse E stdout) as [e|v]; [discriminate|].
    destruct v as [ | | | | | | props]; try discriminate.
    destruct (truthy _) eqn:Hs; [|discriminate]. cbv zeta.
    destruct (read_length _) as [e|[]] eqn:Hn; [discriminate|]. intros [= <-].
    exists props. auto.
  - intros (props & -> & -> & <- & ->). reflexivity.
Qed.

(** C7, as the code has it.  Method 2 runs the venv interpreter first and the
    global [python3] only when that subprocess fails.  It returns exactly
    when the subprocess it ends up with exits with success and prints a JSON
    object whose [success] property is truthy and whose [transcript]
    property is neither [undefined] nor [null] and, should it be an object,
    has a [length] that the log line can convert to a string; what it
    returns is that property as it is, and a transcript that is a string is
    always returned, the empty string included.  Then [getTranscript]
    returns it and goes no further; on every other outcome method 2 ends
    without a result and the orchestrator goes on to fetch the watch page,
    the first step of method 3. *)
Theorem C7_method2_outcomes (E : Env) (videoId : jsstring) (w : world) :
  method2 E videoId w
  = match exec E (python_command E videoId) (files w) with
    | (ExecDone stdout, fs1) =>
        (inr (script_transcript E stdout),
         World fs1 (calls w ++ [CallExec (python_command E videoId)]))
    | (ExecFailed _, fs1) =>
        match exec E (python3_command E videoId) fs1 with
        | (ExecDone stdout2, fs2) =>
            (inr (script_transcript E stdout2),
             World fs2 ((calls w ++ [CallExec (python_command E videoId)])
                          ++ [CallExec (python3_command E videoId)]))
        | (ExecFailed _, fs2) =>
            (inr None,
             World fs2 ((calls w ++ [CallExec (python_command E videoId)])
                          ++ [CallExec (python3_command E videoId)]))
        end
    end
  /\ (forall stdout t,
        script_transcript E stdout = Some t <->
        exists props,
          JSON_parse E stdout = inr (JObj props)
          /\ truthy (lookup_prop (js "success") props) = true
          /\ lookup_prop (js "transcript") props = t
          /\ nullish t = false
          /\ forall fields,
               t = JObj fields ->
               exists rendered,
                 ToString (lookup_prop (js "length") fields) = inr rendered)
  /\ (forall stdout props text,
        JSON_parse E stdout = inr (JObj props) ->
        truthy (lookup_prop (js "success") props) = true ->
        lookup_prop (js "transcript") props = JStr text ->
        script_transcript E stdout = Some (JStr text))
  /\ (forall w0 t w2,
        method1 E videoId w0 = (inr None, w) ->
        method2 E videoId w = (inr (Some t), w2) ->
        getTranscript E videoId w0 = (inr t, w2))
  /\ (forall w0 w2,
        method1 E videoId w0 = (inr None, w) ->
        method2 E videoId w = (inr None, w2) ->
        exists rest,
          calls (snd (getTranscript E videoId w0))
          = calls w2 ++ CallAxiosGet (videoUrl_of videoId) :: rest).
Proof.
  split; [apply method2_run|]. split; [|split; [|split]].
  - intros stdout t. rewrite script_transcript_Some.
    split; intros (props & Hp & Hs & Ht & Hl); exists props;
      (split; [exact Hp|]; split; [exact Hs|]; split; [exact Ht|]).
    + apply read_length_inr. exact Hl.
    + apply read_length_inr in Hl. exact Hl.
  - intros stdout props text Hp Hs Ht. apply script_transcript_Some.
    exists props. rewrite Ht. auto.
  - intros w0 t w2 H1 H2. apply (getTranscript_method2 _ _ _ _ _ _ H1 H2).
  - intros w0 w2 H1 H2.
    destruct (method3_calls E videoId w2) as (r3 & rest & H3).
    destruct r3 as [t3|].
    + rewrite (getTranscript_method3 _ _ _ _ _ _ _ H1 H2 H3). exists rest. reflexivity.
    + rewrite (getTranscript_method4 _ _ _ _ _ _ H1 H2 H3). cbn [snd].
      destruct (transcribeAudio_calls E videoId
                  (World (files w2) (calls w2 ++ CallAxiosGet (videoUrl_of videoId) :: rest)))
        as (rest' & Hc).
      rewrite Hc. cbn [calls]. exists (rest ++ rest').
      rewrite <- app_assoc. reflexivity.
Qed.

(** Both interpreters fail: the orchestrator goes on to the watch page. *)
Lemma C7_method2_outcomes_witness :
  exists rest,
    calls (snd (getTranscript both_pythons_fail_env video0 world0))
    = [CallFetchTranscript video0;
       CallExec (python_command both_pythons_fail_env video0);
       CallExec (python3_command both_pythons_fail_env video0)]
      ++ CallAxiosGet (videoUrl_of video0) :: rest.
Proof.
  refine (proj2 (proj2 (proj2 (proj2
            (C7_method2_outcomes both_pythons_fail_env video0
               (World ∅ [CallFetchTranscript video0])))))
            world0
            (World ∅ [CallFetchTranscript video0;
                      CallExec (python_command both_pythons_fail_env video0);
                      CallExec (python3_command both_pythons_fail_env video0)])
            _ _).
  - vm_compute. reflexivity.
  - vm_compute. reflexivity.
Defined.

(** C7 as the specification words it fails: the venv interpreter exits with
    success and prints a success flag with an empty transcript; method 2
    returns the empty text, [getTranscript] returns it, and the watch page is
    never fetched. *)
Lemma C7_empty_text_counterexample :
  JSON_parse empty_transcript_env empty_transcript_stdout
  = inr (JObj [(js "success", JBool true); (js "transcript", JStr [])])
  /\ fst (getTranscript empty_transcript_env video0 world0) = inr (JStr [])
  /\ calls (snd (getTranscript empty_transcript_env video0 world0))
     = [CallFetchTranscript video0;
        CallExec (python_command empty_transcript_env video0)].
Proof. repeat split; vm_compute; reflexivity. Qed.

(** ** How each method builds its text *)

Lemma event_text_segments e parts :
  event_segments e parts -> event_text e = inr (JStr (List.concat parts)).
Proof.
  intros (segs & Hsegs & [(l & -> & Hparts) | (Hfalsy & ->)]); unfold event_text; rewrite Hsegs.
  - simpl. rewrite (map_err_strings _ _ _ Hparts), join_strings, intercalate_nil_sep.
    reflexivity.
  - rewrite Hfalsy. reflexivity.
Qed.

Lemma event_texts events parts :
  Forall2 event_segments events parts ->
  map_err event_text events = inr (List.map JStr (List.map (@List.concat N) parts)).
Proof.
  intros H. apply map_err_strings.
  induction H as [|e p events parts He _ IH]; simpl; constructor; [|exact IH].
  apply event_text_segments. exact He.
Qed.

(** C6, as the code has it.  Methods 1 and 4 join the [text] of their items
    or segments with single spaces and leave the timing out.  Method 3 runs
    the segments of one event together with nothing between them and joins
    the events with single spaces.  Method 2 does not join anything: what it
    returns is the transcript the script printed. *)
Theorem C6_text_extraction (E : Env) (videoId : jsstring) (w : world) :
  (forall items texts,
      fetchTranscript E videoId = inr (JArr items) ->
      items <> [] ->
      Forall2 has_text items texts ->
      fst (getTranscript E videoId w) = inr (JStr (intercalate (js " ") texts)))
  /\ (forall out fs1 stdout fs2 segments texts,
        exec E (ytDlp_command E videoId) (files w ∖ {[expectedAudioFile E videoId]})
        = (ExecDone out, fs1) ->
        expectedAudioFile E videoId ∈ fs1 ->
        exec E (whisper_command E videoId) fs1 = (ExecDone stdout, fs2) ->
        JSON_parse E stdout = inr (JArr segments) ->
        Forall2 has_text segments texts ->
        fst (transcribeAudio E videoId w) = inr (JStr (intercalate (js " ") texts)))
  /\ (forall html group1 data events parts,
        axios_get E (videoUrl_of videoId) = inr (JStr html) ->
        re_search match_baseUrl_here html = Some group1 ->
        axios_get E (unescape_amp group1 ++ js "&fmt=json3") = inr data ->
        truthy data = true ->
        get_prop data "events" = inr (JArr events) ->
        Forall2 event_segments events parts ->
        fst (method3 E videoId w)
        = inr (Some (JStr (intercalate (js " ") (List.map (@List.concat N) parts)))))
  /\ (forall stdout fs1,
        exec E (python_command E videoId) (files w) = (ExecDone stdout, fs1) ->
        fst (method2 E videoId w) = inr (script_transcript E stdout)).
Proof.
  split; [|split; [|split]].
  - intros items texts Hfetch Hne Htexts.
    destruct (texts_of_items _ _ Htexts) as [Hall Hmap].
    rewrite (getTranscript_items E videoId w items (intercalate (js " ") texts)
               Hfetch Hne Hall); [reflexivity|].
    rewrite Hmap. apply join_strings.
  - intros out fs1 stdout fs2 segments texts H1 Hin H2 Hparse Htexts.
    destruct (texts_of_items _ _ Htexts) as [Hall Hmap].
    rewrite (transcribeAudio_transcribed _ _ _ _ _ _ _ H1 Hin H2).
    rewrite parse_segments_cases, Hparse, Hall, Hmap, join_strings. reflexivity.
  - intros html group1 data events parts Hpage Hmatch Hdata Htruthy Hevents Hparts.
    rewrite method3_run. cbv zeta. rewrite Hpage, Hmatch, Hdata. cbn [fst].
    unfold timedtext_transcript. rewrite Htruthy, Hevents. cbn [truthy js_map].
    rewrite (event_texts _ _ Hparts), join_strings. reflexivity.
  - intros stdout fs1 H. rewrite method2_run, H. reflexivity.
Qed.

Lemma hello_event_segments : event_segments hello_event [js "Hello"; js "world"].
Proof.
  eexists. split; [reflexivity|]. left. eexists. split; [reflexivity|].
  repeat constructor.
Qed.

(** The scenario of the specification through method 1, and one event of two
    segments through method 3. *)
Lemma C6_text_extraction_witness :
  fst (getTranscript hello_env video0 world0) = inr (S_ "Hello world")
  /\ fst (method3 timedtext_env video0 world0) = inr (Some (S_ "Helloworld")).
Proof.
  split.
  - refine (proj1 (C6_text_extraction hello_env video0 world0)
              hello_items [js "Hello"; js "world"] eq_refl _ _).
    + discriminate.
    + repeat constructor.
  - refine (proj1 (proj2 (proj2 (C6_text_extraction timedtext_env video0 world0)))
              watch_page
              (js "https://www.youtube.com/api/timedtext?v=dQw4w9WgXcQ\u0026lang=en")
              timedtext_payload [hello_event] [[js "Hello"; js "world"]]
              _ _ _ _ _ _).
    + vm_compute. reflexivity.
    + vm_compute. reflexivity.
    + vm_compute. reflexivity.
    + reflexivity.
    + reflexivity.
    + constructor; [exact hello_event_segments | constructor].
Defined.

(** C6 as the specification words it fails: methods 1 and 2 find nothing, the
    timed text has one event with the segments [Hello] and [world], and the
    orchestrator returns ["Helloworld"], not ["Hello world"]. *)
Lemma C6_method3_counterexample :
  event_segments hello_event [js "Hello"; js "world"]
  /\ fst (getTranscript timedtext_env video0 world0) = inr (S_ "Helloworld")
  /\ fst (getTranscript timedtext_env video0 world0) <> inr (S_ "Hello world").
Proof.
  split; [exact hello_event_segments|]. split.
  - vm_compute. reflexivity.
  - vm_compute. discriminate.
Qed.

(** ** The handler *)

Lemma extractVideoId_nonempty url id : extractVideoId url = Some id -> truthy (JStr url) = true.
Proof. destruct url; [vm_compute; discriminate | reflexivity]. Qed.

(** C4. For a request whose body holds a URL that [extractVideoId] accepts,
    [processVideo] answers 200 with the demo content and leaves the world as
    it found it: the store is not queried, [getTranscript] is not run (no
    caption fetch, no subprocess, no page fetch, no file touched), no content
    is generated and nothing is saved.  The transcript, summary, key points
    and quiz of the answer are constants; only the URL and identifier of the
    request and the creation date are filled in. *)
Theorem C4_demo_mode_short_circuits (E : Env) (reqBody : jsval) (url videoId : jsstring)
    (w : world) :
  get_prop reqBody "youtubeUrl" = inr (JStr url) ->
  extractVideoId url = Some videoId ->
  processVideo E reqBody w
  = (inr (Response 200 (Json (demoContent E (JStr url) videoId))), w)
  /\ demoContent E (JStr url) videoId
     = JObj [(js "youtubeUrl", JStr url);
             (js "videoId", JStr videoId);
             (js "transcript", demo_transcript);
             (js "summary", demo_summary);
             (js "keyPoints", demo_keyPoints);
             (js "quizQuestions", demo_quizQuestions);
             (js "createdAt", new_Date E)].
Proof.
  intros Hurl Hid. split; [|reflexivity].
  unfold processVideo. run_monad. rewrite Hurl.
  rewrite (extractVideoId_nonempty _ _ Hid). cbn [negb].
  unfold extractVideoId_of. rewrite Hid. reflexivity.
Qed.

(** The watch URL of the scenario, against collaborators that would have
    produced a transcript. *)
Lemma C4_demo_mode_short_circuits_witness :
  processVideo hello_env watch_request world0
  = (inr (Response 200
            (Json (demoContent hello_env
                     (S_ "https://www.youtube.com/watch?v=dQw4w9WgXcQ") video0))),
     world0).
Proof.
  refine (proj1 (C4_demo_mode_short_circuits hello_env watch_request
                   (js "https://www.youtube.com/watch?v=dQw4w9WgXcQ") video0 world0 _ _)).
  - reflexivity.
  - vm_compute. reflexivity.
Defined.

(** * Further properties *)

(** ** The extractor: trimming *)

Lemma trim_start_spaces ws s :
  Forall (fun c => is_js_space c = true) ws -> trim_start (ws ++ s) = trim_start s.
Proof.
  induction 1 as [|c ws Hc _ IH]; [reflexivity|]. simpl. rewrite Hc. exact IH.
Qed.

Lemma trim_start_keeps x c y :
  is_js_space c = false -> trim_start (x ++ c :: y) = trim_start x ++ c :: y.
Proof.
  intros Hc. induction x as [|d x IH]; simpl.
  - rewrite Hc. reflexivity.
  - destruct (is_js_space d); [exact IH | reflexivity].
Qed.

Lemma trim_end_keeps a c t :
  is_js_space c = false -> trim_end (a ++ c :: t) = a ++ c :: trim_end t.
Proof.
  intros Hc. unfold trim_end.
  change (a ++ c :: t) with (a ++ [c] ++ t).
  rewrite !rev_app_distr. simpl. rewrite <- app_assoc. simpl.
  rewrite (trim_start_keeps _ _ _ Hc), rev_app_distr. simpl.
  rewrite rev_involutive, <- app_assoc. reflexivity.
Qed.

Lemma trim_end_spaces s ws :
  Forall (fun c => is_js_space c = true) ws -> trim_end (s ++ ws) = trim_end s.
Proof.
  intros H. unfold trim_end. rewrite rev_app_distr, trim_start_spaces; [reflexivity|].
  apply Forall_rev. exact H.
Qed.

Lemma trim_start_all_spaces ws :
  Forall (fun c => is_js_space c = true) ws -> trim_start ws = [].
Proof.
  intros H. rewrite <- (app_nil_r ws). rewrite (trim_start_spaces _ _ H). reflexivity.
Qed.

Lemma trim_start_app_spaces u ws :
  Forall (fun c => is_js_space c = true) ws ->
  trim_start (u ++ ws) = trim_start u ++ ws
  \/ (trim_start (u ++ ws) = [] /\ trim_start u = []).
Proof.
  intros H. induction u as [|c u IH]; simpl.
  - right. split; [apply trim_start_all_spaces; exact H | reflexivity].
  - destruct (is_js_space c); [exact IH | left; reflexivity].
Qed.

Lemma trim_surrounding_spaces ws1 s ws2 :
  Forall (fun c => is_js_space c = true) ws1 ->
  Forall (fun c => is_js_space c = true) ws2 ->
  trim (ws1 ++ s ++ ws2) = trim s.
Proof.
  intros H1 H2. unfold trim. rewrite (trim_start_spaces _ _ H1).
  destruct (trim_start_app_spaces s ws2 H2) as [-> | [-> ->]]; [|reflexivity].
  apply trim_end_spaces. exact H2.
Qed.

Lemma trim_start_suffix s : exists a, s = a ++ trim_start s.
Proof.
  induction s as [|c s [a IH]]; simpl.
  - exists []. reflexivity.
  - destruct (is_js_space c).
    + exists (c :: a). simpl. rewrite <- IH. reflexivity.
    + exists []. reflexivity.
Qed.

Lemma trim_end_prefix s : exists b, s = trim_end s ++ b.
Proof.
  unfold trim_end. destruct (trim_start_suffix (rev s)) as [a Ha].
  exists (rev a). rewrite <- rev_app_distr, <- Ha, rev_involutive. reflexivity.
Qed.

Lemma trim_within s : exists a b, s = a ++ trim s ++ b.
Proof.
  unfold trim. destruct (trim_start_suffix s) as [a Ha].
  destruct (trim_end_prefix (trim_start s)) as [b Hb].
  exists a, b. rewrite <- Hb. exact Ha.
Qed.

Lemma is_video_id_take id : is_video_id id -> take 11 id = id.
Proof. intros [Hl _]. apply take_ge. lia. Qed.

Lemma extractVideoId_video_id url id : extractVideoId url = Some id -> is_video_id id.
Proof.
  intros H. apply extractVideoId_refines in H. eapply extract_spec_video_id. exact H.
Qed.

(** X1. The URLs the controller itself builds from an identifier lead back
    to it: for every identifier of eleven identifier characters, the watch
    URL that [transcribeAudio] and method 3 fetch, the short link, the embed
    URL and the bare identifier are all read back as that identifier. *)
Theorem extractVideoId_round_trip (id : jsstring) :
  is_video_id id ->
  extractVideoId (videoUrl_of id) = Some id
  /\ extractVideoId (js "https://youtu.be/" ++ id) = Some id
  /\ extractVideoId (js "https://www.youtube.com/embed/" ++ id) = Some id
  /\ extractVideoId id = Some id.
Proof.
  intros Hid. pose proof Hid as [Hl Hall].
  assert (Hlen : (11 <= length id)%nat) by lia.
  split; [|split; [|split]].
  - unfold videoUrl_of. rewrite (watch_url_long_token id Hall Hlen).
    rewrite (is_video_id_take _ Hid). reflexivity.
  - rewrite (short_url_long_token id Hall Hlen), (is_video_id_take _ Hid). reflexivity.
  - rewrite (embed_url_long_token id Hall Hlen), (is_video_id_take _ Hid). reflexivity.
  - rewrite (extractVideoId_token id Hall), Hl. reflexivity.
Qed.

Lemma extractVideoId_round_trip_witness :
  extractVideoId (videoUrl_of video0) = Some video0
  /\ extractVideoId (js "https://youtu.be/" ++ video0) = Some video0
  /\ extractVideoId (js "https://www.youtube.com/embed/" ++ video0) = Some video0
  /\ extractVideoId video0 = Some video0.
Proof.
  apply extractVideoId_round_trip. split.
  - reflexivity.
  - vm_compute. repeat constructor.
Defined.

(** X2. White space around the input does not matter: any run of white
    space or line terminators before and after a string leaves the answer of
    [extractVideoId] as it is for the string alone. *)
Theorem extractVideoId_ignores_surrounding_space (before url after : jsstring) :
  Forall (fun c => is_js_space c = true) before ->
  Forall (fun c => is_js_space c = true) after ->
  extractVideoId (before ++ url ++ after) = extractVideoId url.
Proof.
  intros H1 H2. unfold extractVideoId.
  rewrite (trim_surrounding_spaces _ _ _ H1 H2). reflexivity.
Qed.

Lemma extractVideoId_ignores_surrounding_space_witness :
  extractVideoId ([9; 32; 65279] ++ js "https://youtu.be/dQw4w9WgXcQ" ++ [13; 10; 8232])
  = extractVideoId (js "https://youtu.be/dQw4w9WgXcQ").
Proof.
  apply extractVideoId_ignores_surrounding_space; repeat constructor.
Defined.

(** X3. An answer of [extractVideoId] is eleven identifier characters
    standing together in the input, and is itself accepted: asked again on
    its own answer, the function returns it unchanged. *)
Theorem extractVideoId_answer_within_input (url id : jsstring) :
  extractVideoId url = Some id ->
  (exists pre post, url = pre ++ id ++ post)
  /\ is_video_id id
  /\ extractVideoId id = Some id.
Proof.
  intros H. pose proof (extractVideoId_video_id _ _ H) as Hid.
  split; [|split; [exact Hid|]].
  - destruct (trim_within url) as (a & b & Hurl).
    apply extractVideoId_refines in H.
    assert (Hin : exists pre post, trim url = pre ++ id ++ post).
    { inversion H as [id' Hq | id' _ Hs | id' _ _ He | _ _ _ Hb | ]; subst.
      - destruct Hq as (n & (pre & lead & post & Ht & _) & _).
        exists (pre ++ lead), post. rewrite Ht, <- app_assoc. reflexivity.
      - destruct Hs as (n & (pre & lead & post & Ht & _) & _).
        exists (pre ++ lead), post. rewrite Ht, <- app_assoc. reflexivity.
      - destruct He as (n & (pre & lead & post & Ht & _) & _).
        exists (pre ++ lead), post. rewrite Ht, <- app_assoc. reflexivity.
      - exists [], []. rewrite app_nil_r. reflexivity. }
    destruct Hin as (pre & post & Ht).
    exists (a ++ pre), (post ++ b). rewrite Hurl at 1. rewrite Ht, <- !app_assoc. reflexivity.
  - destruct Hid as [Hl Hall]. rewrite (extractVideoId_token id Hall), Hl. reflexivity.
Qed.

Lemma extractVideoId_answer_within_input_witness :
  (exists pre post,
      js " https://www.youtube.com/watch?v=dQw4w9WgXcQ&t=42s" = pre ++ video0 ++ post)
  /\ is_video_id video0
  /\ extractVideoId video0 = Some video0.
Proof.
  apply extractVideoId_answer_within_input. vm_compute. reflexivity.
Defined.

Lemma trim_end_keeps_run s t post :
  t <> [] -> Forall (fun c => is_js_space c = false) t ->
  trim_end (s ++ t ++ post) = s ++ t ++ trim_end post.
Proof.
  intros Hne Hall. destruct (exists_last Hne) as (t' & c & ->).
  apply Forall_app in Hall as [_ Hc]. inversion Hc as [|? ? Hc' _]; subst.
  rewrite <- !app_assoc. simpl. rewrite app_assoc.
  rewrite (trim_end_keeps _ _ _ Hc'), <- app_assoc. reflexivity.
Qed.

Lemma match_here_id p lead id post :
  accepts p lead -> is_video_id id -> match_here p (lead ++ id ++ post) = Some id.
Proof. intros Hlead Hid. apply match_here_Some. exists lead, post. auto. Qed.

(** X4. Whatever follows the identifier in a watch URL is ignored: for every
    identifier and every continuation (further parameters, a fragment, free
    text), the watch URL of the identifier followed by the continuation is
    read back as the identifier. *)
Theorem extractVideoId_watch_url_continued (id rest : jsstring) :
  is_video_id id ->
  extractVideoId (videoUrl_of id ++ rest) = Some id.
Proof.
  intros Hid. pose proof Hid as [Hl Hall].
  assert (Hne : id <> []) by (intros ->; discriminate).
  assert (Hns : Forall (fun c => is_js_space c = false) id).
  { eapply Forall_impl; [exact Hall | apply idchar_not_space]. }
  unfold extractVideoId, videoUrl_of.
  assert (Htrim : trim ((js "https://www.youtube.com/watch?v=" ++ id) ++ rest)
                  = js "https://www.youtube.com/watch?v=" ++ id ++ trim_end rest).
  { rewrite <- app_assoc. unfold trim.
    change (trim_start (js "https://www.youtube.com/watch?v=" ++ id ++ rest))
      with (js "https://www.youtube.com/watch?v=" ++ id ++ rest).
    apply trim_end_keeps_run; assumption. }
  rewrite Htrim. clear Htrim.
  assert (Hq : re_query (js "https://www.youtube.com/watch?v=" ++ id ++ trim_end rest)
               = Some id).
  { unfold re_query. eval_js. skip_positions. apply re_search_hit.
    apply (match_here_id _ [63; 118; 61] id (trim_end rest)); [|assumption].
    apply accepts_query. left. reflexivity. }
  rewrite Hq. reflexivity.
Qed.

Lemma extractVideoId_watch_url_continued_witness :
  extractVideoId (videoUrl_of video0 ++ js "&list=PL123&t=42s  ") = Some video0.
Proof.
  apply extractVideoId_watch_url_continued. split.
  - reflexivity.
  - vm_compute. repeat constructor.
Defined.

(** ** The handler on every request *)

Lemma processVideo_cases E reqBody w :
  processVideo E reqBody w =
  (inr match get_prop reqBody "youtubeUrl" with
       | inl e => Response 500 (ErrorOf e)
       | inr youtubeUrl =>
           if truthy youtubeUrl then
             match youtubeUrl with
             | JStr url =>
                 match extractVideoId url with
                 | Some videoId => Response 200 (Json (demoContent E youtubeUrl videoId))
                 | None => Response 400 (error_json "Invalid YouTube URL")
                 end
             | _ => Response 500 (ErrorOf TypeError)
             end
           else Response 400 (error_json "YouTube URL is required")
       end,
   w).
Proof.
  unfold processVideo. run_monad.
  destruct (get_prop reqBody "youtubeUrl") as [e|u]; [reflexivity|].
  destruct (truthy u) eqn:Ht; cbn [negb]; [|reflexivity].
  unfold extractVideoId_of.
  destruct u; try reflexivity.
  destruct (extractVideoId s); reflexivity.
Qed.

(** X5. As long as demo mode is on, [processVideo] calls nothing and writes
    nothing, whatever the request holds: it always answers (it never
    throws) with status 200, 400 or 500, and the files and the record of
    collaborator calls are as before. *)
Theorem processVideo_touches_nothing (E : Env) (reqBody : jsval) (w : world) :
  exists resp,
    processVideo E reqBody w = (inr resp, w)
    /\ (status resp = 200 \/ status resp = 400 \/ status resp = 500).
Proof.
  rewrite processVideo_cases. eexists. split; [reflexivity|].
  destruct (get_prop reqBody "youtubeUrl") as [e|u]; [auto|].
  destruct (truthy u); [|auto].
  destruct u; auto. destruct (extractVideoId s); auto.
Qed.

(** X6. How [processVideo] answers.  The status is 200 exactly when the
    body's [youtubeUrl] is a string that [extractVideoId] accepts.  A falsy
    [youtubeUrl] (absent, null, empty, zero, false) is answered 400 "YouTube
    URL is required"; a string without an identifier is answered 400
    "Invalid YouTube URL"; a truthy [youtubeUrl] that is no string (a number,
    an array, an object) makes [trim] fail and is answered 500. *)
Theorem processVideo_answers (E : Env) (reqBody : jsval) (w : world) :
  ((exists resp, fst (processVideo E reqBody w) = inr resp /\ status resp = 200) <->
   (exists url videoId,
       get_prop reqBody "youtubeUrl" = inr (JStr url)
       /\ extractVideoId url = Some videoId))
  /\ (forall youtubeUrl,
        get_prop reqBody "youtubeUrl" = inr youtubeUrl ->
        truthy youtubeUrl = false ->
        fst (processVideo E reqBody w)
        = inr (Response 400 (error_json "YouTube URL is required")))
  /\ (forall url,
        get_prop reqBody "youtubeUrl" = inr (JStr url) ->
        url <> [] ->
        extractVideoId url = None ->
        fst (processVideo E reqBody w)
        = inr (Response 400 (error_json "Invalid YouTube URL")))
  /\ (forall youtubeUrl,
        get_prop reqBody "youtubeUrl" = inr youtubeUrl ->
        truthy youtubeUrl = true ->
        (forall url, youtubeUrl <> JStr url) ->
        fst (processVideo E reqBody w) = inr (Response 500 (ErrorOf TypeError))).
Proof.
  rewrite processVideo_cases. cbn [fst]. split; [|split; [|split]].
  - split.
    + intros (resp & [= <-] & Hs).
      destruct (get_prop reqBody "youtubeUrl") as [e|u]; [discriminate|].
      destruct (truthy u); [|discriminate].
      destruct u; try discriminate.
      destruct (extractVideoId s) as [videoId|] eqn:Hid; [|discriminate].
      exists s, videoId. auto.
    + intros (url & videoId & -> & Hid).
      rewrite (extractVideoId_nonempty _ _ Hid), Hid. eexists. split; reflexivity.
  - intros u -> ->. reflexivity.
  - intros url -> Hne Hnone. destruct url; [contradiction|].
    cbn [truthy]. rewrite Hnone. reflexivity.
  - intros u -> -> Hns. destruct u; try reflexivity.
    exfalso. eapply Hns. reflexivity.
Qed.

(** A number where the URL should be: answered 500, not 400. *)
Lemma processVideo_answers_witness :
  fst (processVideo all_fail_env (JObj [(js "youtubeUrl", JNum false (js "42"))]) world0)
  = inr (Response 500 (ErrorOf TypeError)).
Proof.
  refine (proj2 (proj2 (proj2
            (processVideo_answers all_fail_env
               (JObj [(js "youtubeUrl", JNum false (js "42"))]) world0)))
            (JNum false (js "42")) eq_refl eq_refl _).
  intros url. discriminate.
Defined.

(** ** The handler behind the demo gate *)

Lemma process_fetched_hit E youtubeUrl videoId w cached :
  Video_findOne E videoId = inr cached ->
  truthy cached = true ->
  process_fetched E youtubeUrl videoId w
  = (inr (Response 200 (Json cached)),
     World (files w) (calls w ++ [CallFindOne videoId])).
Proof.
  intros Hfind Ht. unfold process_fetched, call_findOne. run_monad.
  rewrite Hfind, Ht. reflexivity.
Qed.

(** The object the handler builds from the transcript and the content. *)
Lemma process_fetched_miss E youtubeUrl videoId w :
  match Video_findOne E videoId with
  | inr cached => truthy cached = false
  | inl _ => True
  end ->
  process_fetched E youtubeUrl videoId w
  = (let w0 := World (files w) (calls w ++ [CallFindOne videoId]) in
     match getTranscript E videoId w0 with
     | (inl e, w1) => (inl e, w1)
     | (inr transcript, w1) =>
         let w2 := World (files w1) (calls w1 ++ [CallGenerate transcript]) in
         match generateLearningContent E transcript with
         | inl e => (inl e, w2)
         | inr content =>
             if nullish content then (inl TypeError, w2)
             else
               let videoObj :=
                 JObj [(js "youtubeUrl", youtubeUrl);
                       (js "videoId", JStr videoId);
                       (js "transcript", transcript);
                       (js "summary", prop_of "summary" content);
                       (js "keyPoints", js_or (prop_of "keyPoints" content) (JArr []));
                       (js "quizQuestions",
                        js_or (prop_of "quizQuestions" content) (JArr []));
                       (js "createdAt", new_Date E)] in
               (inr (Response 200
                       (Json match Video_save E videoObj with
                             | inr video => video
                             | inl _ => videoObj
                             end)),
                World (files w2) (calls w2 ++ [CallSave videoObj]))
         end
     end).
Proof.
  intros Hmiss. unfold process_fetched, call_findOne, call_generateLearningContent, call_save.
  run_monad. cbv zeta.
  assert (Hc : truthy match Video_findOne E videoId with
                      | inr cached => cached
                      | inl _ => JNull
                      end = false).
  { destruct (Video_findOne E videoId); [reflexivity | assumption]. }
  destruct (Video_findOne E videoId) as [e|cached]; cbn [truthy] in Hc |- *.
  - destruct (getTranscript E videoId _) as [[e'|transcript] w1]; [reflexivity|].
    destruct (generateLearningContent E transcript) as [e'|content]; [reflexivity|].
    destruct (nullish content) eqn:Hn.
    + rewrite (get_prop_nullish _ _ Hn). reflexivity.
    + rewrite !(get_prop_object _ _ Hn). cbn [files calls].
      destruct (Video_save E _); reflexivity.
  - rewrite Hc.
    destruct (getTranscript E videoId _) as [[e'|transcript] w1]; [reflexivity|].
    destruct (generateLearningContent E transcript) as [e'|content]; [reflexivity|].
    destruct (nullish content) eqn:Hn.
    + rewrite (get_prop_nullish _ _ Hn). reflexivity.
    + rewrite !(get_prop_object _ _ Hn). cbn [files calls].
      destruct (Video_save E _); reflexivity.
Qed.

(** X7. Behind the demo gate a cache hit ends the request: when the store
    holds a document for the identifier, the handler answers 200 with that
    document and the store lookup is its only call.  No caption is fetched,
    no subprocess started, no content generated, nothing saved. *)
Theorem cache_hit_skips_the_orchestrator (E : Env) (youtubeUrl : jsval)
    (videoId : jsstring) (w : world) (cached : jsval) :
  Video_findOne E videoId = inr cached ->
  truthy cached = true ->
  process_fetched E youtubeUrl videoId w
  = (inr (Response 200 (Json cached)),
     World (files w) (calls w ++ [CallFindOne videoId])).
Proof. apply process_fetched_hit. Qed.

(** The document is in the store: one call, the lookup. *)
Lemma cache_hit_skips_the_orchestrator_witness :
  process_fetched cached_env (S_ "https://youtu.be/dQw4w9WgXcQ") video0 world0
  = (inr (Response 200 (Json cached_document)), World ∅ [CallFindOne video0]).
Proof.
  exact (cache_hit_skips_the_orchestrator cached_env (S_ "https://youtu.be/dQw4w9WgXcQ")
           video0 world0 cached_document eq_refl eq_refl).
Defined.

(** X8. Behind the demo gate the store cannot fail a request.  When the
    lookup finds nothing or throws, and a transcript and a content object are
    obtained, the answer is 200 whatever saving does: the saved document, or
    the object built from the request when saving throws.  When no transcript
    can be fetched the handler fails with the orchestrator's error and neither
    generates nor saves anything. *)
Theorem store_failures_do_not_fail_the_request (E : Env) (youtubeUrl : jsval)
    (videoId : jsstring) (w : world) :
  match Video_findOne E videoId with
  | inr cached => truthy cached = false
  | inl _ => True
  end ->
  let w0 := World (files w) (calls w ++ [CallFindOne videoId]) in
  (forall transcript w1 content,
      getTranscript E videoId w0 = (inr transcript, w1) ->
      generateLearningContent E transcript = inr content ->
      nullish content = false ->
      exists document,
        process_fetched E youtubeUrl videoId w
        = (inr (Response 200 (Json document)),
           World (files w1)
             (calls w1 ++ [CallGenerate transcript;
                           CallSave
                             (JObj [(js "youtubeUrl", youtubeUrl);
                                    (js "videoId", JStr videoId);
                                    (js "transcript", transcript);
                                    (js "summary", prop_of "summary" content);
                                    (js "keyPoints",
                                     js_or (prop_of "keyPoints" content) (JArr []));
                                    (js "quizQuestions",
                                     js_or (prop_of "quizQuestions" content) (JArr []));
                                    (js "createdAt", new_Date E)])]))
        /\ (forall e,
              Video_save E
                (JObj [(js "youtubeUrl", youtubeUrl);
                       (js "videoId", JStr videoId);
                       (js "transcript", transcript);
                       (js "summary", prop_of "summary" content);
                       (js "keyPoints", js_or (prop_of "keyPoints" content) (JArr []));
                       (js "quizQuestions",
                        js_or (prop_of "quizQuestions" content) (JArr []));
                       (js "createdAt", new_Date E)]) = inl e ->
              prop_of "transcript" document = transcript
              /\ prop_of "videoId" document = JStr videoId))
  /\ (forall e w1,
        getTranscript E videoId w0 = (inl e, w1) ->
        process_fetched E youtubeUrl videoId w
        = (inl (Error (js "Could not fetch transcript from any source")), w1)).
Proof.
  intros Hmiss w0. split.
  - intros transcript w1 content Ht Hg Hn.
    rewrite (process_fetched_miss _ _ _ _ Hmiss). cbv zeta. fold w0.
    rewrite Ht, Hg, Hn. cbn [files calls]. eexists. split.
    + rewrite <- app_assoc. reflexivity.
    + intros e ->. split; reflexivity.
  - intros e w1 Ht.
    rewrite (process_fetched_miss _ _ _ _ Hmiss). cbv zeta. fold w0.
    rewrite Ht. rewrite (getTranscript_error _ _ _ _ _ Ht). reflexivity.
Qed.

(** The lookup throws and saving throws: still 200, with the transcript. *)
Lemma store_failures_do_not_fail_the_request_witness :
  exists document,
    fst (process_fetched broken_store_env (S_ "https://youtu.be/dQw4w9WgXcQ") video0 world0)
    = inr (Response 200 (Json document))
    /\ prop_of "transcript" document = S_ "Hello world".
Proof.
  destruct (proj1 (store_failures_do_not_fail_the_request broken_store_env
                     (S_ "https://youtu.be/dQw4w9WgXcQ") video0 world0 I)
              (S_ "Hello world")
              (World ∅ [CallFindOne video0; CallFetchTranscript video0])
              (JObj [(js "summary", S_ "A greeting.")])
              eq_refl eq_refl eq_refl)
    as (document & Hrun & Hsave).
  exists document. split.
  - rewrite Hrun. reflexivity.
  - exact (proj1 (Hsave store_down eq_refl)).
Defined.

(** ** The orchestrator as a whole *)

(** X9. A failed [getTranscript] leaves no audio file behind: whenever the
    orchestrator fails, the temporary audio file of the identifier is not on
    disk afterwards, whatever the subprocesses of methods 2 and 4 did. *)
Theorem failed_getTranscript_leaves_no_audio_file (E : Env) (videoId : jsstring)
    (w w' : world) (e : error) :
  getTranscript E videoId w = (inl e, w') ->
  expectedAudioFile E videoId ∉ files w'.
Proof.
  destruct (method1_total E videoId w) as ([t1|] & w1 & H1).
  { rewrite (getTranscript_method1 _ _ _ _ _ H1). discriminate. }
  destruct (method2_total E videoId w1) as ([t2|] & w2 & H2).
  { rewrite (getTranscript_method2 _ _ _ _ _ _ H1 H2). discriminate. }
  destruct (method3_total E videoId w2) as ([t3|] & w3 & H3).
  { rewrite (getTranscript_method3 _ _ _ _ _ _ _ H1 H2 H3). discriminate. }
  rewrite (getTranscript_method4 _ _ _ _ _ _ H1 H2 H3).
  intros [= _ <-]. apply transcribeAudio_file_gone.
Qed.

Lemma failed_getTranscript_leaves_no_audio_file_witness :
  expectedAudioFile all_fail_env video0
  ∉ files (snd (getTranscript all_fail_env video0 stale_world)).
Proof.
  apply (failed_getTranscript_leaves_no_audio_file all_fail_env video0 stale_world _
           (Error (js "Could not fetch transcript from any source"))).
  vm_compute. reflexivity.
Defined.

Lemma method2_calls E videoId w :
  exists d,
    calls (snd (method2 E videoId w)) = calls w ++ d
    /\ (d = [CallExec (python_command E videoId)]
        \/ d = [CallExec (python_command E videoId);
                CallExec (python3_command E videoId)]).
Proof.
  rewrite method2_run.
  destruct (exec E (python_command E videoId) (files w)) as [[e|stdout] fs1].
  - destruct (exec E (python3_command E videoId) fs1) as [[e2|stdout2] fs2];
      eexists; (split; [cbn [snd calls]; rewrite <- app_assoc; reflexivity | auto]).
  - eexists. split; [reflexivity | auto].
Qed.

Lemma transcribeAudio_call_shape E videoId w :
  exists d,
    calls (snd (transcribeAudio E videoId w))
    = calls w ++ CallExec (ytDlp_command E videoId) :: d
    /\ (d = [] \/ d = [CallExec (whisper_command E videoId)])
    /\ (d = [CallExec (whisper_command E videoId)] <->
        exists out fs1,
          exec E (ytDlp_command E videoId) (files w ∖ {[expectedAudioFile E videoId]})
          = (ExecDone out, fs1)
          /\ expectedAudioFile E videoId ∈ fs1).
Proof.
  rewrite transcribeAudio_unfold. cbv zeta.
  destruct (exec E (ytDlp_command E videoId) _) as [[e|out] fs1] eqn:H1.
  - exists []. split; [reflexivity|]. split; [auto|]. split; [discriminate|].
    intros (out & fs & [=] & _).
  - destruct (bool_decide_reflect (expectedAudioFile E videoId ∈ fs1)) as [Hin|Hout].
    + destruct (exec E (whisper_command E videoId) fs1) as [r2 fs2].
      exists [CallExec (whisper_command E videoId)].
      split; [cbn [snd calls]; rewrite <- app_assoc; reflexivity|].
      split; [auto|]. split; [|reflexivity]. intros _. exists out, fs1. auto.
    + exists []. split; [reflexivity|]. split; [auto|]. split; [discriminate|].
      intros (out' & fs & [= _ <-] & Hin). contradiction.
Qed.

(** X10. One request costs a bounded number of calls and never retries:
    [getTranscript] first calls the caption library, once, and after that
    makes at most six further calls, each of them a subprocess or a page
    fetch; the store and the content generator are never called. *)
Theorem getTranscript_bounded_effort (E : Env) (videoId : jsstring) (w : world) :
  exists d,
    calls (snd (getTranscript E videoId w))
    = calls w ++ CallFetchTranscript videoId :: d
    /\ (length d <= 6)%nat
    /\ Forall acquisition_call d.
Proof.
  pose proof (method1_run E videoId w) as H1.
  destruct (method1 E videoId w) as [r1 w1] eqn:Hm1.
  injection H1 as Hr1 Hw1.
  destruct r1 as [e1|[t1|]]; [discriminate| |].
  { rewrite (getTranscript_method1 _ _ _ _ _ Hm1). subst w1.
    exists []. split; [reflexivity|]. split; [simpl; lia | constructor]. }
  destruct (method2_calls E videoId w1) as (d2 & Hc2 & Hd2).
  destruct (method2_total E videoId w1) as (r2 & w2 & Hm2).
  rewrite Hm2 in Hc2. cbn [snd] in Hc2.
  assert (Hk2 : (length d2 <= 2)%nat /\ Forall acquisition_call d2).
  { destruct Hd2 as [-> | ->]; split; simpl; try lia; repeat constructor. }
  destruct Hk2 as [Hl2 Hf2].
  assert (Hw2 : calls w2 = calls w ++ CallFetchTranscript videoId :: d2).
  { rewrite Hc2. subst w1. cbn [calls]. rewrite <- app_assoc. reflexivity. }
  destruct r2 as [t2|].
  { rewrite (getTranscript_method2 _ _ _ _ _ _ Hm1 Hm2).
    exists d2. split; [exact Hw2|]. split; [lia | exact Hf2]. }
  destruct (method3_calls E videoId w2) as (r3 & rest & Hm3).
  pose proof (method3_run E videoId w2) as Hrun3. rewrite Hm3 in Hrun3.
  assert (Hl3 : (length rest <= 1)%nat /\ Forall acquisition_call rest).
  { cbv zeta in Hrun3.
    destruct (axios_get E (videoUrl_of videoId)) as [e|html].
    { injection Hrun3 as _ Hc. apply app_inv_head in Hc. injection Hc as ->.
      split; [simpl; lia | constructor]. }
    destruct html as [ | | | | html | | ];
      try (injection Hrun3 as _ Hc; apply app_inv_head in Hc; injection Hc as ->;
           split; [simpl; lia | constructor]).
    destruct (re_search match_baseUrl_here html) as [group1|].
    - injection Hrun3 as _ Hc. rewrite <- app_assoc in Hc.
      apply app_inv_head in Hc. injection Hc as ->.
      split; [simpl; lia | repeat constructor].
    - injection Hrun3 as _ Hc. apply app_inv_head in Hc. injection Hc as ->.
      split; [simpl; lia | constructor]. }
  destruct Hl3 as [Hl3 Hf3].
  set (w3 := World (files w2) (calls w2 ++ CallAxiosGet (videoUrl_of videoId) :: rest)) in *.
  assert (Hw3 : calls w3
                = calls w ++ CallFetchTranscript videoId
                    :: (d2 ++ CallAxiosGet (videoUrl_of videoId) :: rest)).
  { subst w3. cbn [calls]. rewrite Hw2, <- app_assoc. reflexivity. }
  destruct r3 as [t3|].
  { rewrite (getTranscript_method3 _ _ _ _ _ _ _ Hm1 Hm2 Hm3).
    eexists. split; [exact Hw3|]. split.
    - rewrite length_app. simpl. lia.
    - apply Forall_app. split; [exact Hf2|]. constructor; [exact I | exact Hf3]. }
  rewrite (getTranscript_method4 _ _ _ _ _ _ Hm1 Hm2 Hm3). cbn [snd].
  destruct (transcribeAudio_call_shape E videoId w3) as (d4 & Hc4 & Hd4 & _).
  rewrite Hc4, Hw3.
  exists ((d2 ++ CallAxiosGet (videoUrl_of videoId) :: rest)
            ++ CallExec (ytDlp_command E videoId) :: d4).
  split; [rewrite <- app_assoc; reflexivity|]. split.
  - rewrite ?length_app. simpl. rewrite ?length_app. simpl.
    destruct Hd4 as [-> | ->]; simpl; lia.
  - apply Forall_app. split.
    + apply Forall_app. split; [exact Hf2|]. constructor; [exact I | exact Hf3].
    + constructor; [exact I|]. destruct Hd4 as [-> | ->]; repeat constructor.
Qed.

(** ** The page scrape *)

Lemma unescape_amp_cons c s :
  (c =? 92) = false -> unescape_amp (c :: s) = c :: unescape_amp s.
Proof.
  intros Hc. destruct s as [|c1 [|c2 [|c3 [|c4 [|c5 s']]]]]; try reflexivity.
  cbn [unescape_amp]. rewrite Hc. reflexivity.
Qed.

Lemma unescape_amp_prefix p s :
  Forall (fun c => (c =? 92) = false) p -> unescape_amp (p ++ s) = p ++ unescape_amp s.
Proof.
  induction 1 as [|c p Hc _ IH]; [reflexivity|].
  simpl app. rewrite (unescape_amp_cons _ _ Hc), IH. reflexivity.
Qed.

Lemma match_baseUrl_here_group s group1 :
  match_baseUrl_here s = Some group1 ->
  exists more, group1 = js "https://www.youtube.com/api/timedtext" ++ more /\ more <> [].
Proof.
  unfold match_baseUrl_here.
  destruct (match_classes _ s) as [[lead r]|]; [|discriminate].
  destruct (match_classes (lits "https://www.youtube.com/api/timedtext") r)
    as [[head r']|] eqn:Hhead; [|discriminate].
  apply match_classes_Some in Hhead as [_ Hacc]. apply accepts_lits in Hacc as ->.
  destruct (span_not_dq r') as [[|c more] [|c' rest]]; try discriminate.
  intros [= <-]. exists (c :: more). split; [reflexivity | discriminate].
Qed.

Lemma re_search_found {A} (m : jsstring -> option A) s r :
  re_search m s = Some r -> exists n, m (drop n s) = Some r.
Proof. intros H. apply re_search_Some in H as (n & Hn & _). eauto. Qed.

(** X11. The second fetch of method 3 cannot be steered off the caption
    endpoint: whatever the watch page contains, method 3 fetches the watch
    URL of the identifier and then at most one more URL, and that URL begins
    with [https://www.youtube.com/api/timedtext] and ends with
    [&fmt=json3].  Method 3 starts no subprocess and touches no file. *)
Theorem method3_fetches_only_the_caption_endpoint (E : Env) (videoId : jsstring)
    (w : world) :
  files (snd (method3 E videoId w)) = files w
  /\ (calls (snd (method3 E videoId w)) = calls w ++ [CallAxiosGet (videoUrl_of videoId)]
      \/ exists path,
           path <> []
           /\ calls (snd (method3 E videoId w))
              = calls w ++ [CallAxiosGet (videoUrl_of videoId);
                            CallAxiosGet (js "https://www.youtube.com/api/timedtext"
                                            ++ path ++ js "&fmt=json3")]).
Proof.
  rewrite method3_run. cbv zeta.
  destruct (axios_get E (videoUrl_of videoId)) as [e|html]; [auto|].
  destruct html as [ | | | | html | | ]; auto.
  destruct (re_search match_baseUrl_here html) as [group1|] eqn:Hm; [|auto].
  split; [reflexivity|]. right.
  apply re_search_found in Hm as (n & Hm).
  apply match_baseUrl_here_group in Hm as (more & -> & Hne).
  rewrite unescape_amp_prefix by (vm_compute; repeat constructor).
  exists (unescape_amp more). split.
  - destruct more as [|c more]; [contradiction|].
    destruct (c =? 92) eqn:Hc.
    + destruct more as [|c1 [|c2 [|c3 [|c4 [|c5 s']]]]]; try discriminate.
      cbn [unescape_amp]. destruct (_ && _); discriminate.
    + rewrite (unescape_amp_cons _ _ Hc). discriminate.
  - cbn [snd calls]. rewrite <- !app_assoc. reflexivity.
Qed.

(** X12. When the page scrape returns a transcript the audio fallback is
    never started: after methods 1 and 2 have ended without a result,
    a result of method 3 is what [getTranscript] returns; the disk is as
    method 2 left it and the only calls added are the two page fetches. *)
Theorem method3_short_circuits (E : Env) (videoId : jsstring) (w0 w1 w2 w3 : world)
    (transcript : jsval) :
  method1 E videoId w0 = (inr None, w1) ->
  method2 E videoId w1 = (inr None, w2) ->
  method3 E videoId w2 = (inr (Some transcript), w3) ->
  getTranscript E videoId w0 = (inr transcript, w3)
  /\ files w3 = files w2
  /\ exists captionUrl,
       calls w3 = calls w2 ++ [CallAxiosGet (videoUrl_of videoId);
                               CallAxiosGet captionUrl].
Proof.
  intros H1 H2 H3. split; [apply (getTranscript_method3 _ _ _ _ _ _ _ H1 H2 H3)|].
  rewrite method3_run in H3. cbv zeta in H3.
  destruct (axios_get E (videoUrl_of videoId)) as [e|html]; [discriminate|].
  destruct html as [ | | | | html | | ]; try discriminate.
  destruct (re_search match_baseUrl_here html) as [group1|]; [|discriminate].
  injection H3 as _ <-. split; [reflexivity|].
  eexists. cbn [calls]. rewrite <- app_assoc. reflexivity.
Qed.

Lemma method3_short_circuits_witness :
  getTranscript timedtext_env video0 world0
  = (inr (S_ "Helloworld"),
     World ∅
       [CallFetchTranscript video0;
        CallExec (python_command timedtext_env video0);
        CallExec (python3_command timedtext_env video0);
        CallAxiosGet (videoUrl_of video0);
        CallAxiosGet (js "https://www.youtube.com/api/timedtext?v=dQw4w9WgXcQ&lang=en&fmt=json3")]).
Proof.
  refine (proj1 (method3_short_circuits timedtext_env video0 world0
                   (World ∅ [CallFetchTranscript video0])
                   (World ∅ [CallFetchTranscript video0;
                             CallExec (python_command timedtext_env video0);
                             CallExec (python3_command timedtext_env video0)])
                   _ (S_ "Helloworld") _ _ _)); vm_compute; reflexivity.
Defined.

(** ** The audio bridge: what it runs and what it leaves alone *)

(** X13. [transcribeAudio] starts the download first and the transcription
    at most once after it: the calls it adds are the download command alone,
    or the download command followed by the transcription command, and the
    transcription is started exactly when the download exited with success
    and left the audio file on disk. *)
Theorem transcription_runs_only_after_download (E : Env) (videoId : jsstring)
    (w : world) :
  exists d,
    calls (snd (transcribeAudio E videoId w))
    = calls w ++ CallExec (ytDlp_command E videoId) :: d
    /\ (d = [] \/ d = [CallExec (whisper_command E videoId)])
    /\ (d = [CallExec (whisper_command E videoId)] <->
        exists out fs1,
          exec E (ytDlp_command E videoId) (files w ∖ {[expectedAudioFile E videoId]})
          = (ExecDone out, fs1)
          /\ expectedAudioFile E videoId ∈ fs1).
Proof. apply transcribeAudio_call_shape. Qed.

(** X14. [transcribeAudio] itself removes the audio file and nothing else:
    when the two subprocesses leave every other file as they found it, every
    other file is on disk afterwards exactly when it was before. *)
Theorem transcribeAudio_leaves_other_files (E : Env) (videoId : jsstring) (w : world) :
  (forall command fs p,
      p <> expectedAudioFile E videoId ->
      p ∈ snd (exec E command fs) <-> p ∈ fs) ->
  forall p,
    p <> expectedAudioFile E videoId ->
    p ∈ files (snd (transcribeAudio E videoId w)) <-> p ∈ files w.
Proof.
  intros Hframe p Hp.
  assert (Hrm : forall fs : gset jsstring,
             p ∈ fs ∖ {[expectedAudioFile E videoId]} <-> p ∈ fs).
  { intros fs. rewrite elem_of_difference, elem_of_singleton. tauto. }
  rewrite transcribeAudio_unfold. cbv zeta.
  pose proof (Hframe (ytDlp_command E videoId)
                (files w ∖ {[expectedAudioFile E videoId]}) p Hp) as H1.
  destruct (exec E (ytDlp_command E videoId) _) as [[e|out] fs1]; cbn [snd] in H1.
  - cbn [snd files]. rewrite Hrm, H1, Hrm. reflexivity.
  - destruct (bool_decide _).
    + pose proof (Hframe (whisper_command E videoId) fs1 p Hp) as H2.
      destruct (exec E (whisper_command E videoId) fs1) as [r2 fs2]. cbn [snd] in H2.
      cbn [snd files]. rewrite Hrm, H2, H1, Hrm. reflexivity.
    + cbn [snd files]. rewrite H1, Hrm. reflexivity.
Qed.

(** The download writes the audio file next to another file: the other file
    is still there afterwards. *)
Lemma transcribeAudio_leaves_other_files_witness :
  js "/app/notes.txt"
    ∈ files (snd (transcribeAudio empty_segments_env video0
                    (World {[ js "/app/notes.txt" ]} [])))
  <-> js "/app/notes.txt" ∈ files (World {[ js "/app/notes.txt" ]} []).
Proof.
  apply (transcribeAudio_leaves_other_files empty_segments_env video0).
  - intros command fs p Hp. cbn [exec empty_segments_env scenario_env]. unfold audio_run.
    repeat case_bool_decide; cbn [snd]; try reflexivity.
    rewrite elem_of_union, elem_of_singleton.
    change (expectedAudioFile all_fail_env video0)
      with (expectedAudioFile empty_segments_env video0). tauto.
  - vm_compute. discriminate.
Defined.

(** ** Sentences of the local fallback *)

Lemma span_app k s : fst (Content.span k s) ++ snd (Content.span k s) = s.
Proof.
  induction s as [|c s IH]; simpl; [reflexivity|].
  destruct (k c); [|reflexivity].
  destruct (Content.span k s) as [a b]. simpl in *. rewrite IH. reflexivity.
Qed.

Lemma span_all k s : Forall (fun c => k c = true) (fst (Content.span k s)).
Proof.
  induction s as [|c s IH]; simpl; [constructor|].
  destruct (k c) eqn:Hc; [|constructor].
  destruct (Content.span k s) as [a b]. simpl in *. constructor; assumption.
Qed.

Lemma span_stops k s :
  match snd (Content.span k s) with
  | [] => True
  | c :: _ => k c = false
  end.
Proof.
  induction s as [|c s IH]; simpl; [exact I|].
  destruct (k c) eqn:Hc; [|exact Hc].
  destruct (Content.span k s) as [a b]. exact IH.
Qed.

Lemma span_whole k s :
  Forall (fun c => k c = true) s -> Content.span k s = (s, []).
Proof.
  induction 1 as [|c s Hc _ IH]; simpl; [reflexivity|]. rewrite Hc, IH. reflexivity.
Qed.

Lemma not_terminator_false c :
  Content.not_terminator c = true <-> Content.is_terminator c = false.
Proof. unfold Content.not_terminator. destruct (Content.is_terminator c); simpl; split; congruence. Qed.

Lemma not_terminator_true c :
  Content.not_terminator c = false <-> Content.is_terminator c = true.
Proof. unfold Content.not_terminator. destruct (Content.is_terminator c); simpl; split; congruence. Qed.

Lemma sentence_here_Some s found rest :
  Content.sentence_here s = Some (found, rest) ->
  s = found ++ rest
  /\ sentence_shape found
  /\ match rest with
     | [] => True
     | c :: _ => Content.is_terminator c = false
     end.
Proof.
  unfold Content.sentence_here.
  pose proof (span_app Content.not_terminator s) as Happ.
  pose proof (span_all Content.not_terminator s) as Hall.
  destruct (Content.span Content.not_terminator s) as [body r]. cbn [fst snd] in *.
  destruct body as [|b body]; [discriminate|].
  pose proof (span_app Content.is_terminator r) as Happ2.
  pose proof (span_all Content.is_terminator r) as Hall2.
  pose proof (span_stops Content.is_terminator r) as Hstop.
  destruct (Content.span Content.is_terminator r) as [marks r']. cbn [fst snd] in *.
  destruct marks as [|m marks]; [discriminate|].
  intros [= <- <-]. split; [|split].
  - rewrite <- Happ, <- Happ2. simpl. rewrite <- app_assoc. reflexivity.
  - exists (b :: body), (m :: marks). split; [reflexivity|].
    split; [discriminate|]. split; [discriminate|]. split; [|exact Hall2].
    eapply Forall_impl; [exact Hall|]. intros c. apply not_terminator_false.
  - exact Hstop.
Qed.

Lemma sentence_here_None s :
  Content.sentence_here s = None ->
  match s with
  | [] => True
  | c :: _ =>
      Content.is_terminator c = true
      \/ Forall (fun c => Content.is_terminator c = false) s
  end.
Proof.
  unfold Content.sentence_here. destruct s as [|c s]; [auto|].
  pose proof (span_app Content.not_terminator (c :: s)) as Happ.
  pose proof (span_all Content.not_terminator (c :: s)) as Hall.
  pose proof (span_stops Content.not_terminator (c :: s)) as Hstop.
  destruct (Content.span Content.not_terminator (c :: s)) as [body r]. cbn [fst snd] in *.
  destruct body as [|b body].
  - intros _. left. simpl in Happ. subst r. apply not_terminator_true. exact Hstop.
  - pose proof (span_stops Content.is_terminator r) as Hstop2.
    pose proof (span_app Content.is_terminator r) as Happ2.
    pose proof (span_all Content.is_terminator r) as Hall2.
    destruct r as [|t r].
    + intros _. right. rewrite app_nil_r in Happ. rewrite <- Happ.
      eapply Forall_impl; [exact Hall|]. intros x. apply not_terminator_false.
    + apply not_terminator_true in Hstop. simpl. rewrite Hstop.
      destruct (Content.span Content.is_terminator r) as [a b']. discriminate.
Qed.

Lemma sentence_here_no_marks s :
  Forall (fun c => Content.is_terminator c = false) s -> Content.sentence_here s = None.
Proof.
  intros H. unfold Content.sentence_here.
  rewrite (span_whole Content.not_terminator s)
    by (eapply Forall_impl; [exact H|]; intros c; apply not_terminator_false).
  destruct s; reflexivity.
Qed.

Lemma match_all_no_marks fuel s :
  Forall (fun c => Content.is_terminator c = false) s ->
  Content.match_all Content.sentence_here fuel s = [].
Proof.
  revert s. induction fuel as [|fuel IH]; intros s H; [reflexivity|]. simpl.
  rewrite (sentence_here_no_marks _ H). destruct s as [|c s]; [reflexivity|].
  apply IH. inversion H; assumption.
Qed.

Lemma sentence_shape_nonempty x : sentence_shape x -> x <> [].
Proof.
  intros (body & marks & -> & Hb & _). destruct body; [contradiction | discriminate].
Qed.

Lemma match_all_partition fuel s :
  (length s < fuel)%nat ->
  exists lead tail,
    s = lead ++ List.concat (Content.match_all Content.sentence_here fuel s) ++ tail
    /\ Forall (fun c => Content.is_terminator c = true) lead
    /\ Forall (fun c => Content.is_terminator c = false) tail
    /\ match s with
       | [] => lead = []
       | c :: _ => Content.is_terminator c = false -> lead = []
       end.
Proof.
  revert s. induction fuel as [|fuel IH]; intros s Hlen; [lia|]. simpl.
  destruct (Content.sentence_here s) as [[found rest]|] eqn:Hs.
  - apply sentence_here_Some in Hs as (Hsplit & Hshape & Hrest).
    pose proof (sentence_shape_nonempty _ Hshape) as Hne.
    assert (Hrl : (length rest < fuel)%nat).
    { rewrite Hsplit, length_app in Hlen. destruct found; [contradiction|]. simpl in Hlen. lia. }
    destruct (IH rest Hrl) as (lead & tail & Hr & Hlead & Htail & Hhead).
    assert (Hlead0 : lead = []).
    { destruct rest as [|c rest]; [exact Hhead | exact (Hhead Hrest)]. }
    subst lead. exists [], tail. split.
    + simpl. rewrite <- app_assoc. simpl in Hr. rewrite <- Hr. exact Hsplit.
    + split; [constructor|]. split; [exact Htail|]. destruct s; auto.
  - apply sentence_here_None in Hs. destruct s as [|c s].
    + exists [], []. repeat split; constructor.
    + destruct Hs as [Hc | Hall].
      * assert (Hrl : (length s < fuel)%nat) by (simpl in Hlen; lia).
        destruct (IH s Hrl) as (lead & tail & Hr & Hlead & Htail & _).
        exists (c :: lead), tail. split; [simpl; rewrite <- Hr; reflexivity|].
        split; [constructor; assumption|]. split; [exact Htail|].
        intros Hc'. congruence.
      * inversion Hall as [|? ? Hc Hs']; subst.
        rewrite (match_all_no_marks _ _ Hs'). exists [], (c :: s).
        split; [reflexivity|]. split; [constructor|]. split; [exact Hall | auto].
Qed.

Lemma match_all_shapes fuel s :
  Forall sentence_shape (Content.match_all Content.sentence_here fuel s).
Proof.
  revert s. induction fuel as [|fuel IH]; intros s; [constructor|]. simpl.
  destruct (Content.sentence_here s) as [[found rest]|] eqn:Hs.
  - apply sentence_here_Some in Hs as (_ & Hshape & _). constructor; [exact Hshape | apply IH].
  - destruct s; [constructor | apply IH].
Qed.

(** X15. The sentence pattern of the local fallback cuts the text into
    consecutive pieces and drops nothing in between: the text is a run of
    end marks, then the sentences one after the other, then a rest without
    any end mark; and every sentence is a non-empty run of other characters
    followed by a non-empty run of the marks [.], [!] and [?]. *)
Theorem sentences_partition_the_text (text : jsstring) :
  (exists lead tail,
      text = lead ++ List.concat (Content.sentences text) ++ tail
      /\ Forall (fun c => Content.is_terminator c = true) lead
      /\ Forall (fun c => Content.is_terminator c = false) tail)
  /\ Forall sentence_shape (Content.sentences text).
Proof.
  split.
  - destruct (match_all_partition (S (length text)) text ltac:(lia))
      as (lead & tail & H & Hl & Ht & _).
    exists lead, tail. auto.
  - apply match_all_shapes.
Qed.

(** ** Key points of the local fallback *)

Lemma terminator_not_space c : Content.is_terminator c = true -> is_js_space c = false.
Proof.
  unfold Content.is_terminator. rewrite !orb_true_iff, !N.eqb_eq.
  intros [[-> | ->] | ->]; reflexivity.
Qed.

Lemma trim_start_head s c r : trim_start s = c :: r -> is_js_space c = false.
Proof.
  induction s as [|d s IH]; simpl; [discriminate|].
  destruct (is_js_space d) eqn:Hd; [exact IH|]. intros [= <- _]. exact Hd.
Qed.

Lemma trim_sentence x :
  sentence_shape x ->
  (exists init mark, trim x = init ++ [mark] /\ Content.is_terminator mark = true)
  /\ match trim x with
     | [] => True
     | c :: _ => is_js_space c = false
     end.
Proof.
  intros (body & marks & -> & _ & Hm & _ & Hmarks).
  destruct (exists_last Hm) as (marks' & mark & ->).
  apply Forall_app in Hmarks as [_ Hmark]. inversion Hmark as [|? ? Hmark' _]; subst.
  pose proof (terminator_not_space _ Hmark') as Hns.
  assert (Ht : trim (body ++ marks' ++ [mark])
               = trim_start (body ++ marks') ++ [mark]).
  { unfold trim. rewrite app_assoc, (trim_start_keeps _ _ _ Hns).
    rewrite (trim_end_keeps _ _ _ Hns). reflexivity. }
  rewrite Ht. split.
  - eauto.
  - destruct (trim_start (body ++ marks')) as [|c r] eqn:Hts; [exact Hns|].
    simpl. eapply trim_start_head. exact Hts.
Qed.

Lemma validSentences_shapes text :
  Forall key_point_shape (Content.validSentences text).
Proof.
  unfold Content.validSentences. apply Forall_forall. intros x Hx.
  apply list_elem_of_In, filter_In in Hx as [Hin Hlen].
  apply in_map_iff in Hin as (s & <- & Hs).
  pose proof (match_all_shapes (S (length text)) text) as Hall.
  rewrite Forall_forall in Hall. specialize (Hall s (proj2 (list_elem_of_In _ _) Hs)).
  destruct (trim_sentence _ Hall) as [Hend Hhead].
  split; [|split; assumption]. apply Nat.ltb_lt. exact Hlen.
Qed.

Lemma intercalate_cons_nonempty sep x l : x <> [] -> intercalate sep (x :: l) <> [].
Proof. intros Hx. destruct x; [contradiction|]. destruct l; discriminate. Qed.

(** X16. The key points of the local fallback are real sentences or the
    three placeholders, never anything else.  Every candidate starts with a
    character that is no white space, is longer than forty characters and ends in [.], [!] or [?].
    When there is a candidate, the key points are the first five candidates,
    the summary is built from the first three and the quiz option quotes the
    first fifty characters of the first; when there is none, the key points
    are the placeholders [Point 1], [Point 2], [Point 3], the quiz option is
    [Concept A] and the summary quotes the first two hundred characters of
    the text. *)
Theorem local_key_points (text : jsstring) :
  Forall key_point_shape (Content.validSentences text)
  /\ (forall first more,
        Content.validSentences text = first :: more ->
        Content.keyPoints text = take 5 (first :: more)
        /\ Content.summary_body text = intercalate (js " ") (take 3 (first :: more))
        /\ Content.mentioned text = take 50 first ++ js "...")
  /\ (Content.validSentences text = [] ->
        Content.keyPoints text = [js "Point 1"; js "Point 2"; js "Point 3"]
        /\ Content.summary_body text = take 200 text
        /\ Content.mentioned text = js "Concept A").
Proof.
  split; [apply validSentences_shapes|]. split.
  - intros first more Hv. unfold Content.keyPoints, Content.summary_body, Content.mentioned.
    rewrite Hv. split; [reflexivity|]. split; [|reflexivity].
    assert (Hne : first <> []).
    { pose proof (validSentences_shapes text) as H. rewrite Hv in H.
      inversion H as [|? ? [Hl _] _]; subst. intros ->. simpl in Hl. lia. }
    change (take 3 (first :: more)) with (first :: take 2 more).
    pose proof (intercalate_cons_nonempty (js " ") first (take 2 more) Hne) as Hi.
    match goal with
    | |- match ?joined with _ => _ end = _ =>
        assert (Hj : joined <> []) by exact Hi; clear Hi;
        destruct joined; [exfalso; apply Hj; reflexivity | reflexivity]
    end.
  - intros Hv. unfold Content.keyPoints, Content.summary_body, Content.mentioned.
    rewrite Hv. auto.
Qed.

(** One sentence of fifty-three characters and a short one: the long one,
    trimmed, is the only key point and the summary, and the quiz option
    quotes its first fifty characters.  Two short sentences: the
    placeholders. *)
Lemma local_key_points_witness :
  Content.validSentences long_talk
  = [js "Python is a programming language used in many fields."]
  /\ (Content.keyPoints long_talk
      = [js "Python is a programming language used in many fields."]
      /\ Content.summary_body long_talk
         = js "Python is a programming language used in many fields."
      /\ Content.mentioned long_talk
         = js "Python is a programming language used in many fiel...")
  /\ (Content.keyPoints (js "Short. Tiny!") = [js "Point 1"; js "Point 2"; js "Point 3"]
      /\ Content.summary_body (js "Short. Tiny!") = take 200 (js "Short. Tiny!")
      /\ Content.mentioned (js "Short. Tiny!") = js "Concept A").
Proof.
  split; [vm_compute; reflexivity|]. split.
  - apply (proj1 (proj2 (local_key_points long_talk))
             (js "Python is a programming language used in many fields.") []).
    vm_compute. reflexivity.
  - apply (proj2 (proj2 (local_key_points (js "Short. Tiny!")))). vm_compute. reflexivity.
Defined.

Lemma keyPoints_count text :
  (1 <= length (Content.keyPoints text) <= 5)%nat.
Proof.
  unfold Content.keyPoints.
  destruct (take 5 (Content.validSentences text)) as [|p ps] eqn:Ht; [simpl; lia|].
  rewrite <- Ht, length_take. destruct (Content.validSentences text); [discriminate|].
  cbn [length]. lia.
Qed.

(** X17. Without an API key [generateLearningContent] cannot fail and never
    returns empty lists: for every transcript it returns an object with a
    summary that opens with the notice of the local mode, between one and
    five key points, and exactly two quiz questions, each with four options
    of which the first is the correct answer.  The parser is not used, and
    the bare object of the second absence check (no key points, no quiz) is
    never what comes back. *)
Theorem local_content_shape (parse : jsstring -> error + jsval) (transcript : jsstring) :
  exists body points option1,
    Content.generateLearningContent parse None transcript
    = inr (JObj [(js "summary",
                  JStr (js "This is a strictly local summary because no AI API key (Groq) was found. "
                          ++ [10; 10] ++ body));
                 (js "keyPoints", JArr (List.map JStr points));
                 (js "quizQuestions",
                  JArr [Content.question
                          "What is the primary topic discussed in this video segment?"
                          [S_ "The main topic from the transcript"; S_ "Ancient History";
                           S_ "Cooking Recipes"; S_ "Sports"]
                          (S_ "The main topic from the transcript");
                        Content.question "Which of the following was mentioned?"
                          [JStr option1; S_ "Alien Life";
                           S_ "Underwater Basket Weaving"; S_ "Time Travel"]
                          (JStr option1)])])
    /\ (1 <= length points <= 5)%nat
    /\ option1 <> []
    /\ Content.generateLearningContent parse None transcript
       <> inr (Content.simple_content transcript).
Proof.
  exists (Content.summary_body (Content.truncated transcript)),
         (Content.keyPoints (Content.truncated transcript)),
         (Content.mentioned (Content.truncated transcript)).
  split; [reflexivity|]. split; [apply keyPoints_count|]. split.
  - unfold Content.mentioned. destruct (Content.validSentences _) as [|first more].
    + discriminate.
    + intros H. apply app_eq_nil in H as [_ H]. discriminate.
  - unfold Content.generateLearningContent, Content.local_content, Content.simple_content.
    discriminate.
Qed.

(** ** The request to the model and its reply *)





Lemma strip_json_fences_cons c s :
  (c =? 96) = false ->
  Content.strip_json_fences (c :: s) = c :: Content.strip_json_fences s.
Proof.
  intros Hc. destruct s as [|c1 [|c2 [|c3 [|c4 [|c5 [|c6 s']]]]]]; try reflexivity.
  cbn [Content.strip_json_fences]. rewrite Hc. reflexivity.
Qed.

Lemma strip_json_fences_prefix p s :
  Forall (fun c => (c =? 96) = false) p ->
  Content.strip_json_fences (p ++ s) = p ++ Content.strip_json_fences s.
Proof.
  induction 1 as [|c p Hc _ IH]; [reflexivity|].
  simpl app. rewrite (strip_json_fences_cons _ _ Hc), IH. reflexivity.
Qed.

Lemma strip_fences_cons c s :
  (c =? 96) = false ->
  Content.strip_fences (c :: s) = c :: Content.strip_fences s.
Proof.
  intros Hc. destruct s as [|c1 [|c2 s']]; try reflexivity.
  cbn [Content.strip_fences]. rewrite Hc. reflexivity.
Qed.

Lemma strip_fences_prefix p s :
  Forall (fun c => (c =? 96) = false) p ->
  Content.strip_fences (p ++ s) = p ++ Content.strip_fences s.
Proof.
  induction 1 as [|c p Hc _ IH]; [reflexivity|].
  simpl app. rewrite (strip_fences_cons _ _ Hc), IH. reflexivity.
Qed.

Lemma indexOf_first c pre s :
  Forall (fun x => (x =? c) = false) pre ->
  Content.indexOf c (pre ++ c :: s) = Some (length pre).
Proof.
  induction 1 as [|x pre Hx _ IH]; simpl.
  - rewrite N.eqb_refl. reflexivity.
  - rewrite Hx, IH. reflexivity.
Qed.

Lemma indexOf_none c s :
  Forall (fun x => (x =? c) = false) s -> Content.indexOf c s = None.
Proof. induction 1 as [|x s Hx _ IH]; simpl; [reflexivity|]. rewrite Hx, IH. reflexivity. Qed.

Lemma lastIndexOf_none c s :
  Forall (fun x => (x =? c) = false) s -> Content.lastIndexOf c s = None.
Proof. induction 1 as [|x s Hx _ IH]; simpl; [reflexivity|]. rewrite IH, Hx. reflexivity. Qed.

Lemma lastIndexOf_last c s post :
  Forall (fun x => (x =? c) = false) post ->
  Content.lastIndexOf c (s ++ c :: post) = Some (length s).
Proof.
  intros Hpost. induction s as [|x s IH]; simpl.
  - rewrite (lastIndexOf_none _ _ Hpost), N.eqb_refl. reflexivity.
  - rewrite IH. reflexivity.
Qed.

Lemma extract_object_between pre mid post :
  Forall (fun x => (x =? 123) = false) pre ->
  Forall (fun x => (x =? 125) = false) post ->
  Content.extract_object (pre ++ 123 :: mid ++ 125 :: post) = 123 :: mid ++ [125].
Proof.
  intros Hpre Hpost. unfold Content.extract_object.
  rewrite (indexOf_first _ _ _ Hpre).
  assert (Hlast : Content.lastIndexOf 125 (pre ++ 123 :: mid ++ 125 :: post)
                  = Some (length (pre ++ 123 :: mid))).
  { rewrite <- (lastIndexOf_last 125 (pre ++ 123 :: mid) post Hpost).
    rewrite <- app_assoc. reflexivity. }
  rewrite Hlast. unfold Content.substring. rewrite length_app. cbn [length].
  rewrite Nat.min_l, Nat.max_r by lia.
  rewrite drop_app_length.
  replace (length pre + S (length mid) + 1 - length pre)%nat
    with (length (123 :: mid ++ [125])) by (cbn [length]; rewrite length_app; simpl; lia).
  change (123 :: mid ++ 125 :: post) with ((123 :: mid) ++ [125] ++ post).
  rewrite app_assoc. apply take_app_length.
Qed.

Lemma extract_object_swapped a mid b :
  Forall (fun x => (x =? 123) = false) (a ++ 125 :: mid) ->
  Forall (fun x => (x =? 125) = false) (mid ++ 123 :: b) ->
  Content.extract_object (a ++ 125 :: mid ++ 123 :: b) = mid.
Proof.
  intros Hopen Hclose. unfold Content.extract_object.
  assert (Hfirst : Content.indexOf 123 (a ++ 125 :: mid ++ 123 :: b)
                   = Some (length (a ++ 125 :: mid))).
  { rewrite <- (indexOf_first 123 (a ++ 125 :: mid) b Hopen).
    rewrite <- app_assoc. reflexivity. }
  rewrite Hfirst, (lastIndexOf_last 125 a (mid ++ 123 :: b) Hclose).
  unfold Content.substring. rewrite length_app. cbn [length].
  rewrite Nat.min_r, Nat.max_l by lia.
  replace (a ++ 125 :: mid ++ 123 :: b) with ((a ++ [125]) ++ mid ++ 123 :: b)
    by (rewrite <- app_assoc; reflexivity).
  replace (length a + 1)%nat with (length (a ++ [125%N])) by (rewrite length_app; reflexivity).
  rewrite drop_app_length.
  replace (length a + S (length mid) - length (a ++ [125%N]))%nat with (length mid)
    by (rewrite length_app; simpl; lia).
  apply take_app_length.
Qed.

(** X19. What is handed to [JSON.parse].  For text free of backticks:
    chatter before the first opening brace and after the last closing brace
    is cut away, leaving the text from brace to brace; a reply without any
    brace is passed on whole.  A reply fenced as a [json] code block is
    unwrapped to the object text.  When the only closing brace stands before
    the only opening brace, [substring] swaps its arguments and the text
    strictly between the two braces is what gets parsed. *)
Theorem reply_is_cut_to_the_object (mid : jsstring) :
  Forall (fun c => (c =? 96) = false) mid ->
  (forall pre post,
      Forall (fun c => (c =? 96) = false) (pre ++ post) ->
      Forall (fun c => (c =? 123) = false) pre ->
      Forall (fun c => (c =? 125) = false) post ->
      Content.clean_reply (pre ++ 123 :: mid ++ 125 :: post) = 123 :: mid ++ [125])
  /\ Content.clean_reply
       (js "```json" ++ [10] ++ (123 :: mid ++ [125]) ++ [10] ++ js "```")
     = 123 :: mid ++ [125]
  /\ (Forall (fun c => (c =? 123) = false) mid ->
      Forall (fun c => (c =? 125) = false) mid ->
      Content.clean_reply mid = mid
      /\ forall a b,
           Forall (fun c => (c =? 96) = false) (a ++ b) ->
           Forall (fun c => (c =? 123) = false) (a ++ b) ->
           Forall (fun c => (c =? 125) = false) (a ++ b) ->
           Content.clean_reply (a ++ 125 :: mid ++ 123 :: b) = mid).
Proof.
  intros Hmid.
  assert (Hclean : forall s, Forall (fun c => (c =? 96) = false) s ->
                             Content.strip_fences (Content.strip_json_fences s) = s).
  { intros s Hs. rewrite <- (app_nil_r s).
    rewrite (strip_json_fences_prefix _ _ Hs). cbn [Content.strip_json_fences].
    rewrite (strip_fences_prefix _ _ Hs). reflexivity. }
  split; [|split].
  - intros pre post Htick Hpre Hpost. unfold Content.clean_reply.
    apply Forall_app in Htick as [Htpre Htpost].
    rewrite Hclean.
    + apply extract_object_between; assumption.
    + apply Forall_app. split; [exact Htpre|]. constructor; [reflexivity|].
      apply Forall_app. split; [exact Hmid|]. constructor; [reflexivity | exact Htpost].
  - unfold Content.clean_reply.
    assert (Hobj : Forall (fun c => (c =? 96) = false) ((123 :: mid ++ [125]) ++ [10])).
    { apply Forall_app. split; [|repeat constructor].
      constructor; [reflexivity|]. apply Forall_app. split; [exact Hmid | repeat constructor]. }
    change (js "```json" ++ [10] ++ (123 :: mid ++ [125]) ++ [10] ++ js "```")
      with (96 :: 96 :: 96 :: 106 :: 115 :: 111 :: 110 :: 10
               :: (123 :: mid ++ [125]) ++ [10] ++ js "```").
    cbn [Content.strip_json_fences N.eqb Pos.eqb andb].
    rewrite app_assoc, (strip_json_fences_prefix _ _ Hobj).
    change (Content.strip_json_fences (js "```")) with (js "```").
    rewrite (strip_fences_prefix _ _ Hobj).
    change (Content.strip_fences (js "```")) with (@nil N).
    rewrite app_nil_r.
    change ((123 :: mid ++ [125]) ++ [10]) with ([] ++ 123 :: (mid ++ [125]) ++ [10]).
    rewrite <- app_assoc.
    apply (extract_object_between [] mid [10]); repeat constructor.
  - intros Hopen Hclose. split.
    + unfold Content.clean_reply. rewrite (Hclean _ Hmid). unfold Content.extract_object.
      rewrite (indexOf_none _ _ Hopen). reflexivity.
    + intros a b Htick Ho Hc. unfold Content.clean_reply.
      apply Forall_app in Htick as [Hta Htb]. apply Forall_app in Ho as [Hoa Hob].
      apply Forall_app in Hc as [Hca Hcb].
      rewrite Hclean.
      * apply extract_object_swapped.
        -- apply Forall_app. split; [exact Hoa|]. constructor; [reflexivity | exact Hopen].
        -- apply Forall_app. split; [exact Hclose|]. constructor; [reflexivity | exact Hcb].
      * apply Forall_app. split; [exact Hta|]. constructor; [reflexivity|].
        apply Forall_app. split; [exact Hmid|]. constructor; [reflexivity | exact Htb].
Qed.

Lemma reply_is_cut_to_the_object_witness :
  Content.clean_reply
    (js "Here you go: " ++ 123 :: (dq ++ js "summary" ++ dq ++ js ": " ++ dq ++ js "ok" ++ dq)
        ++ 125 :: js " Enjoy!")
  = 123 :: (dq ++ js "summary" ++ dq ++ js ": " ++ dq ++ js "ok" ++ dq) ++ [125].
Proof.
  apply (proj1 (reply_is_cut_to_the_object
                  (dq ++ js "summary" ++ dq ++ js ": " ++ dq ++ js "ok" ++ dq)
                  ltac:(vm_compute; repeat constructor))
           (js "Here you go: ") (js " Enjoy!")); vm_compute; repeat constructor.
Defined.


(** ** Direct transcripts *)

Lemma processTranscript_cases E reqBody w :
  processTranscript E reqBody w =
  match get_prop reqBody "transcript" with
  | inl e => (inr (Response 500 (ErrorOf e)), w)
  | inr transcript =>
      match transcript_rejected transcript with
      | inl e => (inr (Response 500 (ErrorOf e)), w)
      | inr true =>
          (inr (Response 400
                  (error_json "Please provide a transcript with at least 50 characters")),
           w)
      | inr false =>
          let w1 := World (files w) (calls w ++ [CallGenerate transcript]) in
          match generateLearningContent E transcript with
          | inl e => (inr (Response 500 (ErrorOf e)), w1)
          | inr content =>
              if nullish content then (inr (Response 500 (ErrorOf TypeError)), w1)
              else
                (inr (Response 200
                        (Json (JObj [(js "title",
                                      js_or (prop_of "title" reqBody) (S_ "Direct Transcript"));
                                     (js "transcript", transcript);
                                     (js "summary", prop_of "summary" content);
                                     (js "keyPoints",
                                      js_or (prop_of "keyPoints" content) (JArr []));
                                     (js "quizQuestions",
                                      js_or (prop_of "quizQuestions" content) (JArr []));
                                     (js "createdAt", new_Date E)]))),
                 w1)
          end
      end
  end.
Proof.
  unfold processTranscript, call_generateLearningContent. run_monad.
  destruct (nullish reqBody) eqn:Hb.
  - rewrite (get_prop_nullish _ _ Hb). reflexivity.
  - rewrite !(get_prop_object _ _ Hb).
    destruct (transcript_rejected (prop_of "transcript" reqBody)) as [e|[|]];
      try reflexivity.
    cbv zeta.
    destruct (generateLearningContent E _) as [e|content]; [reflexivity|].
    destruct (nullish content) eqn:Hn.
    + rewrite (get_prop_nullish _ _ Hn). reflexivity.
    + rewrite !(get_prop_object _ _ Hn). reflexivity.
Qed.

(** X20. [processTranscript] turns away what is too short before anything
    is generated: a transcript that is absent or falsy, or a string with
    fewer than fifty code units once trimmed, is answered 400 and no
    collaborator is called; a truthy transcript that is no string makes
    [trim] fail and is answered 500, again with nothing called. *)
Theorem short_transcripts_are_rejected (E : Env) (reqBody : jsval) (w : world)
    (transcript : jsval) :
  get_prop reqBody "transcript" = inr transcript ->
  (truthy transcript = false
   \/ (exists s, transcript = JStr s /\ (length (trim s) < 50)%nat) ->
   processTranscript E reqBody w
   = (inr (Response 400
             (error_json "Please provide a transcript with at least 50 characters")),
      w))
  /\ (truthy transcript = true ->
      (forall s, transcript <> JStr s) ->
      processTranscript E reqBody w = (inr (Response 500 (ErrorOf TypeError)), w)).
Proof.
  intros Hget. rewrite processTranscript_cases, Hget. split.
  - intros [Hfalsy | (s & -> & Hshort)]; unfold transcript_rejected.
    + rewrite Hfalsy. reflexivity.
    + destruct (truthy (JStr s)); [|reflexivity]. cbn [negb].
      rewrite (proj2 (Nat.ltb_lt _ _) Hshort). reflexivity.
  - intros Ht Hns. unfold transcript_rejected. rewrite Ht. cbn [negb].
    destruct transcript; try reflexivity. exfalso. eapply Hns. reflexivity.
Qed.

(** Forty-six characters between spaces: rejected, nothing called. *)
Lemma short_transcripts_are_rejected_witness :
  processTranscript local_env
    (JObj [(js "transcript", S_ "   Python is a language. It has lists and tuples.   ")])
    world0
  = (inr (Response 400
            (error_json "Please provide a transcript with at least 50 characters")),
     world0).
Proof.
  refine (proj1 (short_transcripts_are_rejected local_env
                   (JObj [(js "transcript",
                           S_ "   Python is a language. It has lists and tuples.   ")])
                   world0
                   (S_ "   Python is a language. It has lists and tuples.   ") eq_refl) _).
  right. eexists. split; [reflexivity|]. vm_compute. lia.
Defined.

(** X21. [processTranscript] never touches the store or the disk and never
    throws: for every request it answers with status 200, 400 or 500, the
    files are as before, and the only call it can add is one call of the
    content generator, made with a string transcript of at least fifty code
    units after trimming. *)
Theorem processTranscript_effects (E : Env) (reqBody : jsval) (w : world) :
  exists resp w',
    processTranscript E reqBody w = (inr resp, w')
    /\ (status resp = 200 \/ status resp = 400 \/ status resp = 500)
    /\ files w' = files w
    /\ (calls w' = calls w
        \/ exists s,
             (50 <= length (trim s))%nat
             /\ calls w' = calls w ++ [CallGenerate (JStr s)]).
Proof.
  rewrite processTranscript_cases.
  destruct (get_prop reqBody "transcript") as [e|transcript]; [eauto 10|].
  destruct (transcript_rejected transcript) as [e|[|]] eqn:Hr; [eauto 10 | eauto 10 |].
  assert (Hs : exists s, transcript = JStr s /\ (50 <= length (trim s))%nat).
  { unfold transcript_rejected in Hr. destruct (truthy transcript); [|discriminate].
    cbn [negb] in Hr. destruct transcript; try discriminate.
    injection Hr as Hr. apply Nat.ltb_ge in Hr. eauto. }
  destruct Hs as (s & -> & Hlen). cbv zeta.
  destruct (generateLearningContent E (JStr s)) as [e|content].
  - eexists _, _. split; [reflexivity|]. split; [auto|]. split; [reflexivity|]. eauto.
  - destruct (nullish content);
      (eexists _, _; split; [reflexivity|]; split; [auto|]; split; [reflexivity|]; eauto).
Qed.

(** X22. Without an API key a transcript that is long enough is always
    answered 200: the answer echoes the transcript as it was sent
    (untrimmed), carries the title of the request or ["Direct Transcript"],
    the summary and the quiz of the local fallback and between one and five
    key points; the content generator is the only collaborator called. *)
Theorem direct_transcript_without_api_key (E : Env) (reqBody : jsval) (w : world)
    (s : jsstring) :
  (forall t, generateLearningContent E (JStr t)
             = Content.generateLearningContent (JSON_parse E) None t) ->
  get_prop reqBody "transcript" = inr (JStr s) ->
  (50 <= length (trim s))%nat ->
  processTranscript E reqBody w
  = (inr (Response 200
            (Json (JObj [(js "title",
                          js_or (prop_of "title" reqBody) (S_ "Direct Transcript"));
                         (js "transcript", JStr s);
                         (js "summary", JStr (Content.summary (Content.truncated s)));
                         (js "keyPoints",
                          JArr (List.map JStr (Content.keyPoints (Content.truncated s))));
                         (js "quizQuestions",
                          JArr (Content.quizQuestions (Content.truncated s)));
                         (js "createdAt", new_Date E)]))),
     World (files w) (calls w ++ [CallGenerate (JStr s)]))
  /\ (1 <= length (Content.keyPoints (Content.truncated s)) <= 5)%nat.
Proof.
  intros Hgen Hget Hlen. split; [|apply keyPoints_count].
  rewrite processTranscript_cases, Hget.
  assert (Hr : transcript_rejected (JStr s) = inr false).
  { unfold transcript_rejected. destruct s as [|c s]; [simpl in Hlen; lia|].
    cbn [truthy negb]. rewrite (proj2 (Nat.ltb_ge _ _) Hlen). reflexivity. }
  rewrite Hr. cbv zeta. rewrite Hgen. reflexivity.
Qed.

Lemma direct_transcript_without_api_key_witness :
  exists summary,
    fst (processTranscript local_env (JObj [(js "transcript", JStr short_talk)]) world0)
    = inr (Response 200
             (Json (JObj [(js "title", S_ "Direct Transcript");
                          (js "transcript", JStr short_talk);
                          (js "summary", JStr summary);
                          (js "keyPoints", JArr [S_ "Point 1"; S_ "Point 2"; S_ "Point 3"]);
                          (js "quizQuestions",
                           JArr (Content.quizQuestions (Content.truncated short_talk)));
                          (js "createdAt", new_Date local_env)]))).
Proof.
  eexists.
  rewrite (proj1 (direct_transcript_without_api_key local_env
                    (JObj [(js "transcript", JStr short_talk)]) world0 short_talk
                    (fun t => eq_refl) eq_refl ltac:(vm_compute; lia))).
  vm_compute. reflexivity.
Defined.
